(** * Bump-pointer memory pools of Chapter 7 (itsC)

    A shallow embedding of the pool allocators that appear in
    [Chapter7MemoryManagement/DynamicMemoryAllocation.c],
    [Chapter7MemoryManagement/MemoryLeaks.c] and
    [Chapter7MemoryManagement/StackVHeap.c], together with the properties
    the arena specification states about them.

    Conventions.
    - [size_t] is a 64-bit unsigned integer (LP64); it is carried as a [Z]
      and every addition the C code performs on it is reduced modulo 2^64.
    - A pointer is an address in a flat address space, carried as a [Z];
      [NULL] is address 0.  Pointer arithmetic [p + n] is plain addition.
    - A C function that updates a struct through a pointer becomes a
      function from the old struct value to the returned pointer and the
      new struct value.
    - [malloc] belongs to the C library, not to this repository: the code
      is embedded over an arbitrary [SystemAllocator]. *)

From Stdlib Require Import ZArith Lia List Bool.
From Stdlib Require String Ascii.
Import ListNotations.
Local Open Scope Z_scope.

(* ===================================================================== *)
(** * Machine integers and pointers *)
(* ===================================================================== *)

Module Machine.

(** [size_t] values and addresses are both integers. *)
Abbreviation size_t := Z (only parsing).
Abbreviation ptr := Z (only parsing).

Definition NULL : ptr := 0.

Definition SIZE_MODULUS : Z := 2 ^ 64.
Definition SIZE_MAX : Z := SIZE_MODULUS - 1.

(** Unsigned arithmetic wraps around. *)
Definition wrap (x : Z) : size_t := x mod SIZE_MODULUS.

(** [a + b] on two [size_t] operands. *)
Definition size_add (a b : size_t) : size_t := wrap (a + b).

(** The values a [size_t] variable can hold. *)
Definition in_size_t (x : Z) : Prop := 0 <= x <= SIZE_MAX.

(** [sizeof] of the three-word structs ([MemoryPool], [MemoryArena]):
    one pointer and two [size_t], or two pointers and one [size_t]. *)
Definition sizeof_three_words : size_t := 24.

End Machine.
Import Machine.

(* ===================================================================== *)
(** * The C library allocator *)
(* ===================================================================== *)

(** What the pools need from [malloc]: a call either returns [NULL] or the
    address of a block of the requested size.  [block_size h p] is the
    size of the live block that starts at [p] in heap [h]. *)
Class SystemAllocator (heap : Type) : Type := {
  malloc : size_t -> heap -> ptr * heap;
  block_size : heap -> ptr -> option Z;
  malloc_block_size :
    forall n h p h', malloc n h = (p, h') -> p <> NULL -> block_size h' p = Some n
}.

(** Computations that call the allocator thread the heap. *)
Definition Heap (heap A : Type) : Type := heap -> A * heap.

Definition ret {heap A : Type} (a : A) : Heap heap A := fun h => (a, h).

Definition bind {heap A B : Type} (c : Heap heap A) (k : A -> Heap heap B)
  : Heap heap B :=
  fun h => let (a, h') := c h in k a h'.

Declare Scope heap_scope.
Delimit Scope heap_scope with heap.
Notation "x <- c ;; k" := (bind c (fun x => k))
  (at level 61, c at next level, right associativity) : heap_scope.

(** A concrete allocator, used to run the scenarios: blocks are carved
    one after the other from address [brk], in units of 16 bytes, and a
    request larger than the [avail] remaining bytes returns [NULL]. *)
Module SysHeap.

Record sys_heap : Type := {
  brk : ptr;
  avail : Z;
  live : list (ptr * Z)
}.

Definition sys_malloc (n : size_t) (h : sys_heap) : ptr * sys_heap :=
  if n <=? avail h
  then (brk h,
        {| brk := brk h + 16 * ((Z.max n 1 + 15) / 16);
           avail := avail h - n;
           live := (brk h, n) :: live h |})
  else (NULL, h).

Definition sys_block_size (h : sys_heap) (p : ptr) : option Z :=
  option_map snd (find (fun b => fst b =? p) (live h)).

Lemma sys_malloc_block_size :
  forall n h p h',
    sys_malloc n h = (p, h') -> p <> NULL -> sys_block_size h' p = Some n.
Proof.
  intros n h p h'. unfold sys_malloc.
  destruct (n <=? avail h); intros E Hp; inversion E; subst.
  - unfold sys_block_size. simpl. rewrite Z.eqb_refl. reflexivity.
  - contradiction.
Qed.

#[export] Instance sys_allocator : SystemAllocator sys_heap := {
  malloc := sys_malloc;
  block_size := sys_block_size;
  malloc_block_size := sys_malloc_block_size
}.

(** An empty heap starting at address 4096 with [n] bytes to give. *)
Definition heap_with (n : Z) : sys_heap :=
  {| brk := 4096; avail := n; live := [] |}.

End SysHeap.

(* ===================================================================== *)
(** * DynamicMemoryAllocation.c *)
(* ===================================================================== *)

Module DynamicMemoryAllocation.

(** ** The custom allocator of [section3_best_practices] *)
Module Fixed.

(** [typedef struct { void* memory; size_t used; size_t capacity; }
    MemoryPool;] *)
Record MemoryPool : Type := {
  memory : ptr;
  used : size_t;
  capacity : size_t
}.

Section WithAllocator.
Context {heap : Type} {SA : SystemAllocator heap}.

(** [create_pool]: the handle is [None] when the struct itself
    could not be allocated; the result of the second [malloc] is
    stored without being looked at. *)
Definition create_pool (capacity : size_t)
  : Heap heap (option MemoryPool) :=
  (pool <- malloc sizeof_three_words ;;
   if pool =? NULL then ret None
   else
     memory <- malloc capacity ;;
     ret (Some {| memory := memory; used := 0; capacity := capacity |}))%heap.

End WithAllocator.

(** [pool_alloc]: returns the pointer and the updated struct. *)
Definition pool_alloc (pool : MemoryPool) (size : size_t)
  : ptr * MemoryPool :=
  if size_add (used pool) size >? capacity pool then (NULL, pool)
  else
    let p := memory pool + used pool in
    (p, {| memory := memory pool;
           used := size_add (used pool) size;
           capacity := capacity pool |}).

(** A pool whose backing block was obtained and whose counters are
    consistent. *)
Definition pool_ok (pool : MemoryPool) : Prop :=
  0 < memory pool /\ 0 <= used pool <= capacity pool /\ capacity pool <= SIZE_MAX.

(** A run of [pool_alloc] calls, one per requested size; the result
    lists each returned pointer with the size that was asked for. *)
Fixpoint pool_alloc_all (pool : MemoryPool) (sizes : list size_t)
  : list (ptr * size_t) * MemoryPool :=
  match sizes with
  | [] => ([], pool)
  | size :: rest =>
      let (p, pool') := pool_alloc pool size in
      let (ps, pool'') := pool_alloc_all pool' rest in
      ((p, size) :: ps, pool'')
  end.

End Fixed.

(** ** The chained pool of [section8_performance_analysis] *)
Module Chained.

Definition POOL_BLOCK_SIZE : size_t := 1024.

(** [typedef struct MemoryPool { char* memory; size_t used;
    struct MemoryPool* next; } MemoryPool;]  A [NULL] link is
    [None]. *)
#[warnings="-register-all"] Inductive MemoryPool : Type :=
  Build_MemoryPool {
    memory : ptr;
    used : size_t;
    next : option MemoryPool
  }.

Section WithAllocator.
Context {heap : Type} {SA : SystemAllocator heap}.

Definition create_pool : Heap heap (option MemoryPool) :=
  (pool <- malloc sizeof_three_words ;;
   if pool =? NULL then ret None
   else
     memory <- malloc POOL_BLOCK_SIZE ;;
     ret (Some {| memory := memory; used := 0; next := None |}))%heap.

(** The tail of [pool_alloc], after the block to use is known:
    [ptr = &memory[used]; used += size; return ptr;] *)
Definition take (cur : MemoryPool) (size : size_t)
  : ptr * option MemoryPool :=
  (memory cur + used cur,
   Some {| memory := memory cur;
           used := size_add (used cur) size;
           next := next cur |}).

(** [pool_alloc(MemoryPool** pool, size_t size)]: [pool] is the
    value of [*pool] on entry, the second component of the result
    its value on return.  [grow] is the body of the [if]: a new block
    is made and put in front, or [NULL] is returned at once. *)
Definition pool_alloc (pool : option MemoryPool) (size : size_t)
  : Heap heap (ptr * option MemoryPool) :=
  let grow :=
    (new_pool <- create_pool ;;
     match new_pool with
     | None => ret (NULL, pool)
     | Some np =>
         ret (take {| memory := memory np; used := used np; next := pool |}
                   size)
     end)%heap in
  match pool with
  | None => grow
  | Some cur =>
      if size_add (used cur) size >? POOL_BLOCK_SIZE then grow
      else ret (take cur size)
  end.

End WithAllocator.

(** Every block of the chain has [used] within [POOL_BLOCK_SIZE]. *)
Fixpoint blocks_ok (pool : MemoryPool) : Prop :=
  match pool with
  | Build_MemoryPool _ u n =>
      0 <= u <= POOL_BLOCK_SIZE /\
      match n with
      | None => True
      | Some older => blocks_ok older
      end
  end.

Definition chain_ok (pool : option MemoryPool) : Prop :=
  match pool with
  | None => True
  | Some cur => blocks_ok cur
  end.

End Chained.

End DynamicMemoryAllocation.


(* ===================================================================== *)
(** * MemoryLeaks.c *)
(* ===================================================================== *)

Module MemoryLeaks.

(** ** The static pool of [section3_best_practices]

    [static char memory_pool[POOL_SIZE]; static size_t pool_index = 0;]
    The array lives at a fixed address [memory_pool]; the only state is
    [pool_index]. *)

Definition POOL_SIZE : size_t := 1024.

(** Value of [pool_index] when the program starts. *)
Definition pool_index_init : size_t := 0.

Section StaticPool.
Variable memory_pool : ptr.

Definition pool_alloc (pool_index : size_t) (size : size_t) : ptr * size_t :=
  if size_add pool_index size >? POOL_SIZE then (NULL, pool_index)
  else (memory_pool + pool_index, size_add pool_index size).

Definition pool_reset (pool_index : size_t) : size_t := 0.

Fixpoint pool_alloc_all (pool_index : size_t) (sizes : list size_t)
  : list (ptr * size_t) * size_t :=
  match sizes with
  | [] => ([], pool_index)
  | size :: rest =>
      let (p, pool_index') := pool_alloc pool_index size in
      let (ps, pool_index'') := pool_alloc_all pool_index' rest in
      ((p, size) :: ps, pool_index'')
  end.

(** What a caller can do with the pool, and a run of such calls from
    program start. *)
Inductive pool_op : Type :=
| Alloc (size : size_t)
| Reset.

Definition step (pool_index : size_t) (op : pool_op) : size_t :=
  match op with
  | Alloc size => snd (pool_alloc pool_index size)
  | Reset => pool_reset pool_index
  end.

Definition run (ops : list pool_op) : size_t :=
  fold_left step ops pool_index_init.

End StaticPool.

End MemoryLeaks.

(* ===================================================================== *)
(** * StackVHeap.c *)
(* ===================================================================== *)

Module StackVHeap.

(** ** The static pool of [section3_best_practices] *)

Definition POOL_SIZE : size_t := 1024.

Section StaticPool.
Variable memory_pool : ptr.

Definition pool_alloc (pool_index : size_t) (size : size_t) : ptr * size_t :=
  if size_add pool_index size >? POOL_SIZE then (NULL, pool_index)
  else (memory_pool + pool_index, size_add pool_index size).

End StaticPool.

(** ** The game-engine arena of [section4_real_world_applications] *)

(** [typedef struct { void* start; size_t size; size_t used; }
    MemoryArena;] *)
Record MemoryArena : Type := {
  start : ptr;
  size : size_t;
  used : size_t
}.

Section WithAllocator.
Context {heap : Type} {SA : SystemAllocator heap}.

(** [create_arena] returns the struct by value, whatever [malloc]
    answered. *)
Definition create_arena (size : size_t) : Heap heap MemoryArena :=
  (start <- malloc size ;;
   ret {| start := start; size := size; used := 0 |})%heap.

End WithAllocator.

Definition arena_alloc (arena : MemoryArena) (sz : size_t)
  : ptr * MemoryArena :=
  if size_add (used arena) sz >? size arena then (NULL, arena)
  else
    (start arena + used arena,
     {| start := start arena;
        size := size arena;
        used := size_add (used arena) sz |}).

Definition arena_ok (arena : MemoryArena) : Prop :=
  0 < start arena /\ 0 <= used arena <= size arena /\ size arena <= SIZE_MAX.

End StackVHeap.

(* ===================================================================== *)
(** * The specification's arithmetic *)
(* ===================================================================== *)

(** Definitions that follow the words of the arena specification, kept
    apart from the code so that the two can be compared. *)
Module ArenaSpec.

(** "round [used] up to the nearest multiple of [alignment]" *)
Definition round_up (used alignment : Z) : Z :=
  alignment * ((used + alignment - 1) / alignment).

(** "[alignment] must be a power of two" *)
Definition is_power_of_two (a : Z) : bool :=
  (0 <? a) && (Z.land a (a - 1) =? 0).

(** "if [rounded_used + size <= capacity] of the current block" *)
Definition aligned_fits (used size alignment capacity : Z) : bool :=
  round_up used alignment + size <=? capacity.

(** "a new block sized [max(default_block_size, size + alignment - 1)]" *)
Definition chained_block_size (default_block_size size alignment : Z) : Z :=
  Z.max default_block_size (size + alignment - 1).

End ArenaSpec.

(* ===================================================================== *)
(** * Byte ranges *)
(* ===================================================================== *)

Module Range.

(** A returned range: its first address and its length. *)
Definition range : Type := (ptr * size_t)%type.

Definition contains (r : range) (b : ptr) : Prop :=
  fst r <= b < fst r + snd r.

Definition disjoint (r1 r2 : range) : Prop :=
  forall b, contains r1 b -> contains r2 b -> False.

(** [r] lies inside the block of [len] bytes that starts at [base]. *)
Definition within (base : ptr) (len : Z) (r : range) : Prop :=
  base <= fst r /\ fst r + snd r <= base + len.

(** Ranges are pairwise disjoint: any two at different positions. *)
Definition pairwise_disjoint (rs : list range) : Prop :=
  forall i j ri rj,
    nth_error rs i = Some ri -> nth_error rs j = Some rj ->
    i <> j -> disjoint ri rj.

(** Sum of the requested sizes. *)
Definition total (sizes : list size_t) : Z := fold_right Z.add 0 sizes.

(** Back-to-back placement of [sizes] from address [at_]. *)
Fixpoint layout (at_ : ptr) (sizes : list size_t) : list range :=
  match sizes with
  | [] => []
  | s :: rest => (at_, s) :: layout (at_ + s) rest
  end.

(** The outcome of a run of allocations that all succeeded inside the
    block of [len] bytes at [base]: one range per request, each non-null
    and inside the block, no two of them sharing a byte. *)
Definition well_placed (base : ptr) (len : Z) (sizes : list size_t)
  (ranges : list range) : Prop :=
  map snd ranges = sizes /\
  Forall (fun r => fst r <> NULL /\ within base len r) ranges /\
  pairwise_disjoint ranges.

End Range.

(* ===================================================================== *)
(** * More of the C library *)
(* ===================================================================== *)

(** [int] is 32 bits wide.  Overflow of a signed [int] is undefined in C;
    the model wraps as two's-complement hardware does, and every theorem
    that depends on an [int] result assumes the result is in range. *)
Module CInt.

Definition INT_MAX : Z := 2 ^ 31 - 1.
Definition INT_MIN : Z := - 2 ^ 31.

Definition int_wrap (x : Z) : Z := (x + 2 ^ 31) mod 2 ^ 32 - 2 ^ 31.

Definition int_add (a b : Z) : Z := int_wrap (a + b).

Definition int_mul (a b : Z) : Z := int_wrap (a * b).

(** Conversion of an [int] to [size_t]. *)
Definition size_of_int (x : Z) : size_t := wrap x.

(** [a * b] on two [size_t] operands. *)
Definition size_mul (a b : size_t) : size_t := wrap (a * b).

Definition sizeof_pointer : size_t := 8.

Definition EXIT_FAILURE : Z := 1.

End CInt.

(** [free], [calloc] and [realloc], next to [malloc].  [free(NULL)] does
    nothing. *)
Class SystemHeap (heap : Type) {SA : SystemAllocator heap} : Type := {
  free : ptr -> heap -> heap;
  calloc : size_t -> size_t -> heap -> ptr * heap;
  realloc : ptr -> size_t -> heap -> ptr * heap;
  free_null : forall h, free NULL h = h
}.

(** The concrete allocator of [SysHeap], completed: [free] takes the
    block out of [live] and gives its bytes back, [calloc] is [malloc] of
    the product, and [realloc] takes a new block and frees the old one, or
    returns [NULL] and keeps the old one. *)
Module SysHeapMore.
Import SysHeap.

Definition sys_free (p : ptr) (h : sys_heap) : sys_heap :=
  if p =? NULL then h
  else
    match sys_block_size h p with
    | Some n =>
        {| brk := brk h;
           avail := avail h + n;
           live := filter (fun b => negb (fst b =? p)) (live h) |}
    | None => h
    end.

Definition sys_calloc (nmemb size : size_t) (h : sys_heap) : ptr * sys_heap :=
  sys_malloc (CInt.size_mul nmemb size) h.

Definition sys_realloc (p : ptr) (n : size_t) (h : sys_heap) : ptr * sys_heap :=
  let (q, h') := sys_malloc n h in
  if q =? NULL then (NULL, h) else (q, sys_free p h').

Lemma sys_free_null : forall h, sys_free NULL h = h.
Proof. reflexivity. Qed.

#[export] Instance sys_heap_more : SystemHeap sys_heap := {
  free := sys_free;
  calloc := sys_calloc;
  realloc := sys_realloc;
  free_null := sys_free_null
}.

End SysHeapMore.

(* ===================================================================== *)
(** * Reference counting (all three files) *)
(* ===================================================================== *)

(** The [RefCounted] example of [section5_advanced_concepts] is the same
    text in DynamicMemoryAllocation.c, MemoryLeaks.c and StackVHeap.c. *)
Module RefCounting.

(** [typedef struct { int value; int ref_count; } RefCounted;] *)
Record RefCounted : Type := {
  value : Z;
  ref_count : Z
}.

Definition sizeof_RefCounted : size_t := 8.

(** A [RefCounted*] variable: [NULL], or the address of an object
    together with what the object holds. *)
Definition handle : Type := option (ptr * RefCounted).

(** The two things a holder of the pointer does with it. *)
Inductive ref_op : Type :=
| Increase
| Decrease.

Section WithHeap.
Context {heap : Type} {SA : SystemAllocator heap} {SH : SystemHeap heap}.

Definition create_ref_counted (value : Z) : Heap heap handle :=
  (obj <- malloc sizeof_RefCounted ;;
   if obj =? NULL then ret None
   else ret (Some (obj, {| value := value; ref_count := 1 |})))%heap.

(** [if (obj) obj->ref_count++;] *)
Definition increase_ref (obj : handle) : handle :=
  match obj with
  | None => None
  | Some (p, o) =>
      Some (p, {| value := value o; ref_count := CInt.int_add (ref_count o) 1 |})
  end.

(** [decrease_ref(RefCounted** obj)]: the result is the value of [*obj]
    on return. *)
Definition decrease_ref (obj : handle) : Heap heap handle :=
  match obj with
  | None => ret None
  | Some (p, o) =>
      let count := CInt.int_add (ref_count o) (-1) in
      if count =? 0 then (fun h => (None, free p h))
      else ret (Some (p, {| value := value o; ref_count := count |}))
  end.

Definition apply_op (obj : handle) (op : ref_op) : Heap heap handle :=
  match op with
  | Increase => ret (increase_ref obj)
  | Decrease => decrease_ref obj
  end.

(** A run of calls on one pointer variable. *)
Fixpoint run_ops (ops : list ref_op) (obj : handle) : Heap heap handle :=
  match ops with
  | [] => ret obj
  | op :: rest => (obj' <- apply_op obj op ;; run_ops rest obj')%heap
  end.

End WithHeap.

(** References outstanding after [ops], [c] being outstanding before. *)
Fixpoint outstanding (c : Z) (ops : list ref_op) : Z :=
  match ops with
  | [] => c
  | Increase :: rest => outstanding (c + 1) rest
  | Decrease :: rest => outstanding (c - 1) rest
  end.

(** Along [ops] the last reference is never given up, and the count never
    passes [INT_MAX]. *)
Fixpoint in_use (c : Z) (ops : list ref_op) : Prop :=
  match ops with
  | [] => True
  | Increase :: rest => c < CInt.INT_MAX /\ in_use (c + 1) rest
  | Decrease :: rest => 1 < c /\ in_use (c - 1) rest
  end.

End RefCounting.

(* ===================================================================== *)
(** * StackVHeap.c: the end of an arena *)
(* ===================================================================== *)

Module ArenaLifecycle.
Import StackVHeap.

Section WithHeap.
Context {heap : Type} {SA : SystemAllocator heap} {SH : SystemHeap heap}.

(** [destroy_arena]: the block is freed and the three fields are
    cleared. *)
Definition destroy_arena (arena : MemoryArena) : Heap heap MemoryArena :=
  fun h =>
    ({| start := NULL; size := 0; used := 0 |}, free (start arena) h).

End WithHeap.

(** A run of [arena_alloc] calls, one per requested size. *)
Fixpoint arena_alloc_all (arena : MemoryArena) (sizes : list size_t)
  : list (ptr * size_t) * MemoryArena :=
  match sizes with
  | [] => ([], arena)
  | sz :: rest =>
      let (p, arena') := arena_alloc arena sz in
      let (ps, arena'') := arena_alloc_all arena' rest in
      ((p, sz) :: ps, arena'')
  end.

(** The arena seen as a pool of DynamicMemoryAllocation.c. *)
Definition pool_of_arena (arena : MemoryArena)
  : DynamicMemoryAllocation.Fixed.MemoryPool :=
  {| DynamicMemoryAllocation.Fixed.memory := start arena;
     DynamicMemoryAllocation.Fixed.used := used arena;
     DynamicMemoryAllocation.Fixed.capacity := size arena |}.

(** A static pool seen as a pool of DynamicMemoryAllocation.c. *)
Definition pool_of_static (memory_pool : ptr) (pool_index : size_t)
  : DynamicMemoryAllocation.Fixed.MemoryPool :=
  {| DynamicMemoryAllocation.Fixed.memory := memory_pool;
     DynamicMemoryAllocation.Fixed.used := pool_index;
     DynamicMemoryAllocation.Fixed.capacity := POOL_SIZE |}.

End ArenaLifecycle.

(* ===================================================================== *)
(** * The chain of the chained pool *)
(* ===================================================================== *)

Module ChainShape.
Import DynamicMemoryAllocation.Chained.

(** The addresses of the blocks of a chain, the current block first. *)
Fixpoint block_addresses (pool : MemoryPool) : list ptr :=
  match pool with
  | Build_MemoryPool m _ n =>
      m :: match n with
           | None => []
           | Some older => block_addresses older
           end
  end.

Definition chain_addresses (pool : option MemoryPool) : list ptr :=
  match pool with
  | None => []
  | Some cur => block_addresses cur
  end.

(** What lies behind the current block. *)
Definition older_blocks (pool : option MemoryPool) : option MemoryPool :=
  match pool with
  | None => None
  | Some cur => next cur
  end.

Section WithAllocator.
Context {heap : Type} {SA : SystemAllocator heap}.

(** A run of [pool_alloc] calls on one [MemoryPool*] variable; the
    returned pointers are listed in call order. *)
Fixpoint pool_alloc_all (pool : option MemoryPool) (sizes : list size_t)
  : Heap heap (list ptr * option MemoryPool) :=
  match sizes with
  | [] => ret ([], pool)
  | size :: rest =>
      (r <- pool_alloc pool size ;;
       rs <- pool_alloc_all (snd r) rest ;;
       ret (fst r :: fst rs, snd rs))%heap
  end.

End WithAllocator.

End ChainShape.

(* ===================================================================== *)
(** * Arrays of pointers in the heap *)
(* ===================================================================== *)

(** The contents of a heap block used as an array of pointers: one entry
    per slot the block has room for, [None] for a slot that was never
    written.  An access outside the block, through [NULL], or to a slot
    never written is undefined in C; the model stops there with a
    [Fault]. *)
Module CMemory.

Inductive fault : Type :=
| OutOfBounds
| NullDereference
| Uninitialized.

Inductive outcome (A : Type) : Type :=
| Done (a : A)
| Fault (f : fault).

Arguments Done {A} a.
Arguments Fault {A} f.

(** Slots of pointer size in a block of [bytes] bytes. *)
Definition slots_in (bytes : size_t) : nat :=
  Z.to_nat (bytes / CInt.sizeof_pointer).

Section Arrays.
(** What a slot holds: a plain address, or an address together with what
    it points to. *)
Context {A : Type}.

Definition array : Type := list (option A).

(** A block fresh from [malloc]. *)
Definition fresh_array (bytes : size_t) : array :=
  repeat None (slots_in bytes).

(** A block fresh from [calloc]: every slot holds [null], the null
    pointer. *)
Definition zeroed_array (null : A) (nmemb : size_t) : array :=
  repeat (Some null) (Z.to_nat nmemb).

(** What a successful [realloc] to [bytes] bytes keeps and adds. *)
Definition resized (bytes : size_t) (a : array) : array :=
  firstn (slots_in bytes) a ++ repeat None (slots_in bytes - length a).

Fixpoint write (a : array) (i : nat) (v : A) : array :=
  match a, i with
  | [], _ => []
  | _ :: rest, O => Some v :: rest
  | x :: rest, S i' => x :: write rest i' v
  end.

(** [base[i] = v] *)
Definition store (base : ptr) (a : array) (i : Z) (v : A)
  : outcome array :=
  if base =? NULL then Fault NullDereference
  else if (0 <=? i) && (i <? Z.of_nat (length a))
       then Done (write a (Z.to_nat i) v)
       else Fault OutOfBounds.

(** [base[i]] *)
Definition load (base : ptr) (a : array) (i : Z) : outcome A :=
  if base =? NULL then Fault NullDereference
  else if i <? 0 then Fault OutOfBounds
  else
    match nth_error a (Z.to_nat i) with
    | Some (Some v) => Done v
    | Some None => Fault Uninitialized
    | None => Fault OutOfBounds
    end.

End Arrays.

Arguments array A : clear implicits.

End CMemory.

(* ===================================================================== *)
(** * MemoryLeaks.c: the resource manager *)
(* ===================================================================== *)

(** The example of [section4_real_world_applications]. *)
Module ResourceManagement.
Import CMemory.

(** [typedef struct { void** resources; size_t count; size_t capacity; }
    ResourceManager;] *)
Record ResourceManager : Type := {
  resources : ptr;
  count : size_t;
  capacity : size_t
}.

(** A [ResourceManager*] that is not [NULL]: the address of the struct,
    the struct, and the array its [resources] field points to. *)
Record manager : Type := {
  self : ptr;
  rm : ResourceManager;
  slots : array ptr
}.

Section WithHeap.
Context {heap : Type} {SA : SystemAllocator heap} {SH : SystemHeap heap}.

Definition create_resource_manager (initial_capacity : size_t)
  : Heap heap (option manager) :=
  (p <- malloc sizeof_three_words ;;
   if p =? NULL then ret None
   else
     let bytes := CInt.size_mul initial_capacity CInt.sizeof_pointer in
     res <- malloc bytes ;;
     if res =? NULL then (fun h => (None, free p h))
     else
       ret (Some {| self := p;
                    rm := {| resources := res;
                             count := 0;
                             capacity := initial_capacity |};
                    slots := fresh_array bytes |}))%heap.

(** [rm->resources[rm->count++] = resource;] *)
Definition put (m : manager) (resource : ptr) : outcome manager :=
  match store (resources (rm m)) (slots m) (count (rm m)) resource with
  | Done slots' =>
      Done {| self := self m;
              rm := {| resources := resources (rm m);
                       count := size_add (count (rm m)) 1;
                       capacity := capacity (rm m) |};
              slots := slots' |}
  | Fault f => Fault f
  end.

(** [add_resource] returns nothing; the result is the manager after the
    call. *)
Definition add_resource (m : manager) (resource : ptr)
  : Heap heap (outcome manager) :=
  if count (rm m) =? capacity (rm m) then
    let new_capacity := CInt.size_mul (capacity (rm m)) 2 in
    let bytes := CInt.size_mul new_capacity CInt.sizeof_pointer in
    (new_resources <- realloc (resources (rm m)) bytes ;;
     if new_resources =? NULL then ret (Done m)
     else
       ret (put {| self := self m;
                   rm := {| resources := new_resources;
                            count := count (rm m);
                            capacity := new_capacity |};
                   slots := resized bytes (slots m) |}
                resource))%heap
  else ret (put m resource).

(** The loop of [destroy_resource_manager], from index [i], with [todo]
    iterations left. *)
Fixpoint free_resources (m : manager) (i : size_t) (todo : nat)
  : Heap heap (outcome unit) :=
  match todo with
  | O => ret (Done tt)
  | S todo' =>
      match load (resources (rm m)) (slots m) i with
      | Done p => fun h => free_resources m (size_add i 1) todo' (free p h)
      | Fault f => ret (Fault f)
      end
  end.

Definition destroy_resource_manager (m : manager) : Heap heap (outcome unit) :=
  (r <- free_resources m 0 (Z.to_nat (count (rm m))) ;;
   match r with
   | Done _ =>
       fun h => (Done tt, free (self m) (free (resources (rm m)) h))
   | Fault f => ret (Fault f)
   end)%heap.


End WithHeap.

(** The resources the manager holds: what the first [count] slots
    contain. *)
Definition held (m : manager) : list (option ptr) :=
  firstn (Z.to_nat (count (rm m))) (slots m).

(** A manager as [create_resource_manager] and [add_resource] keep it,
    holding exactly [rs]. *)
Definition holds (m : manager) (rs : list ptr) : Prop :=
  resources (rm m) <> NULL /\
  0 < capacity (rm m) /\
  count (rm m) = Z.of_nat (length rs) /\
  Z.of_nat (length (slots m)) = capacity (rm m) /\
  held m = map Some rs.

End ResourceManagement.

(* ===================================================================== *)
(** * The checked allocation wrappers *)
(* ===================================================================== *)

(** [safe_malloc], [safe_calloc], [safe_realloc] of
    DynamicMemoryAllocation.c ([safe_malloc] is also in MemoryLeaks.c).
    [exit] does not return: a call either returns a pointer or ends the
    program with a status, after a line on [stderr]. *)
Module SafeAlloc.
Import String.

Inductive result : Type :=
| Returned (p : ptr)
| Exited (status : Z) (stderr : String.string).

Definition newline : String.string :=
  String.String (Ascii.ascii_of_nat 10) String.EmptyString.

Definition allocation_failed : String.string :=
  String.append "Memory allocation failed"%string newline.

Definition reallocation_failed : String.string :=
  String.append "Memory reallocation failed"%string newline.

Section WithHeap.
Context {heap : Type} {SA : SystemAllocator heap} {SH : SystemHeap heap}.

Definition safe_malloc (size : size_t) : Heap heap result :=
  (p <- malloc size ;;
   if p =? NULL then ret (Exited CInt.EXIT_FAILURE allocation_failed)
   else ret (Returned p))%heap.

Definition safe_calloc (nmemb size : size_t) : Heap heap result :=
  (p <- calloc nmemb size ;;
   if p =? NULL then ret (Exited CInt.EXIT_FAILURE allocation_failed)
   else ret (Returned p))%heap.

Definition safe_realloc (p : ptr) (size : size_t) : Heap heap result :=
  (new_ptr <- realloc p size ;;
   if (new_ptr =? NULL) && negb (size =? 0)
   then ret (Exited CInt.EXIT_FAILURE reallocation_failed)
   else ret (Returned new_ptr))%heap.

End WithHeap.

End SafeAlloc.

(* ===================================================================== *)
(** * DynamicMemoryAllocation.c: the record database *)
(* ===================================================================== *)

(** The example of [section4_real_world_applications]. *)
Module RecordDatabase.
Import CMemory.

(** A [char*] made by [strdup]: [NULL], or the address of the copy
    together with the characters copied. *)
Definition c_string : Type := option (ptr * String.string).

(** [typedef struct { int id; char* name; int age; } Record;] *)
Record DbRecord : Type := {
  id : Z;
  name : c_string;
  age : Z
}.

(** A [Record*]: [NULL], or the address of a record together with the
    record. *)
Definition record_ptr : Type := option (ptr * DbRecord).

(** [typedef struct { Record** records; int count; int capacity; }
    Database;] *)
Record Database : Type := {
  records : ptr;
  count : Z;
  capacity : Z
}.

(** A [Database*] that is not [NULL]: the address of the struct, the
    struct, and the array its [records] field points to (no array when
    the field is [NULL]). *)
Record database : Type := {
  self : ptr;
  db : Database;
  slots : array record_ptr
}.

Definition sizeof_Database : size_t := 16.
Definition sizeof_Record : size_t := 24.

Section WithHeap.
Context {heap : Type} {SA : SystemAllocator heap} {SH : SystemHeap heap}.

(** [strdup]: room for the characters and the terminator, or [NULL]. *)
Definition strdup (s : String.string) : Heap heap c_string :=
  (p <- malloc (Z.of_nat (String.length s) + 1) ;;
   if p =? NULL then ret None else ret (Some (p, s)))%heap.

(** [create_database]: the result of [calloc] is stored without being
    looked at. *)
Definition create_database (initial_capacity : Z)
  : Heap heap (option database) :=
  (p <- malloc sizeof_Database ;;
   if p =? NULL then ret None
   else
     let nmemb := CInt.size_of_int initial_capacity in
     recs <- calloc nmemb CInt.sizeof_pointer ;;
     ret (Some {| self := p;
                  db := {| records := recs;
                           count := 0;
                           capacity := initial_capacity |};
                  slots := if recs =? NULL then []
                           else zeroed_array None nmemb |}))%heap.

(** The [if] of [add_record]: when the array is full the capacity is
    doubled and the array reallocated, and the result of [realloc] is
    stored without being looked at. *)
Definition grow (d : database) : Heap heap database :=
  if count (db d) =? capacity (db d) then
    let capacity' := CInt.int_mul (capacity (db d)) 2 in
    let bytes := CInt.size_mul (CInt.size_of_int capacity') CInt.sizeof_pointer in
    (recs <- realloc (records (db d)) bytes ;;
     ret {| self := self d;
            db := {| records := recs;
                     count := count (db d);
                     capacity := capacity' |};
            slots := if recs =? NULL then [] else resized bytes (slots d) |})%heap
  else ret d.

(** The rest of [add_record]: a record is allocated and filled through
    its pointer, which is not looked at first, and stored at index
    [count]. *)
Definition insert (d : database) (id : Z) (name : String.string) (age : Z)
  : Heap heap (outcome database) :=
  (record <- malloc sizeof_Record ;;
   if record =? NULL then ret (Fault NullDereference)
   else
     copy <- strdup name ;;
     match store (records (db d)) (slots d) (count (db d))
                 (Some (record, {| id := id; name := copy; age := age |})) with
     | Done slots' =>
         ret (Done {| self := self d;
                      db := {| records := records (db d);
                               count := CInt.int_add (count (db d)) 1;
                               capacity := capacity (db d) |};
                      slots := slots' |})
     | Fault f => ret (Fault f)
     end)%heap.

(** [add_record] returns nothing; the result is the database after the
    call, or the fault at which the call stopped. *)
Definition add_record (d : database) (id : Z) (name : String.string) (age : Z)
  : Heap heap (outcome database) :=
  (d1 <- grow d ;; insert d1 id name age)%heap.

Definition string_address (s : c_string) : ptr :=
  match s with
  | None => NULL
  | Some (p, _) => p
  end.

(** The loop of [destroy_database], from index [i], with [todo]
    iterations left: [free(db->records[i]->name); free(db->records[i]);] *)
Fixpoint free_records (d : database) (i : Z) (todo : nat)
  : Heap heap (outcome unit) :=
  match todo with
  | O => ret (Done tt)
  | S todo' =>
      match load (records (db d)) (slots d) i with
      | Done (Some (p, r)) =>
          fun h =>
            free_records d (CInt.int_add i 1) todo'
                         (free p (free (string_address (name r)) h))
      | Done None => ret (Fault NullDereference)
      | Fault f => ret (Fault f)
      end
  end.

Definition destroy_database (d : database) : Heap heap (outcome unit) :=
  (r <- free_records d 0 (Z.to_nat (count (db d))) ;;
   match r with
   | Done _ => fun h => (Done tt, free (self d) (free (records (db d)) h))
   | Fault f => ret (Fault f)
   end)%heap.

End WithHeap.

(** The first [count] slots. *)
Definition held (d : database) : list (option record_ptr) :=
  firstn (Z.to_nat (count (db d))) (slots d).

(** A database whose array exists, has room for [capacity] records and
    holds exactly the records [rs], each at its address. *)
Definition holds (d : database) (rs : list (ptr * DbRecord)) : Prop :=
  records (db d) <> NULL /\
  0 < capacity (db d) /\
  count (db d) = Z.of_nat (length rs) /\
  Z.of_nat (length (slots d)) = capacity (db d) /\
  held d = map (fun r => Some (Some r)) rs.

End RecordDatabase.

(* ===================================================================== *)
(** * Heaps for the scenarios *)
(* ===================================================================== *)

Module Scenarios.
Import SysHeap.

(** The allocator can satisfy every request of the scenario. *)
Definition roomy : sys_heap := heap_with 1048576.

(** The allocator can give the 24 bytes of a struct, but no block of a
    kilobyte. *)
Definition tight : sys_heap := heap_with 100.

End Scenarios.

(** The strings and the database of the example in
    [section4_real_world_applications]. *)
Module DatabaseScenario.
Import String.

Definition alice : string := "Alice".
Definition bob : string := "Bob".

(** What [create_database(10)] returns from [Scenarios.roomy]. *)
Definition fresh_database : RecordDatabase.database :=
  {| RecordDatabase.self := 4096;
     RecordDatabase.db :=
       {| RecordDatabase.records := 4112;
          RecordDatabase.count := 0;
          RecordDatabase.capacity := 10 |};
     RecordDatabase.slots := repeat (Some None) 10 |}.

End DatabaseScenario.

(* ===================================================================== *)
(** * Facts about machine arithmetic *)
(* ===================================================================== *)

Module MachineFacts.

Lemma SIZE_MODULUS_pos : 0 < SIZE_MODULUS.
Proof. reflexivity. Qed.

Lemma wrap_bounds : forall x, 0 <= wrap x <= SIZE_MAX.
Proof.
  intros x. unfold wrap, SIZE_MAX.
  pose proof (Z.mod_pos_bound x SIZE_MODULUS SIZE_MODULUS_pos). lia.
Qed.

Lemma wrap_id : forall x, 0 <= x <= SIZE_MAX -> wrap x = x.
Proof.
  intros x Hx. unfold wrap. apply Z.mod_small. unfold SIZE_MAX in Hx. lia.
Qed.

Lemma size_add_exact :
  forall a b, 0 <= a -> 0 <= b -> a + b <= SIZE_MAX -> size_add a b = a + b.
Proof. intros a b Ha Hb Hab. unfold size_add. apply wrap_id. lia. Qed.

Lemma size_add_bounds : forall a b, 0 <= size_add a b <= SIZE_MAX.
Proof. intros a b. apply wrap_bounds. Qed.

End MachineFacts.

(* ===================================================================== *)
(** * Facts about byte ranges *)
(* ===================================================================== *)

Module RangeFacts.
Import Range.

Lemma total_nonneg : forall sizes, Forall (fun s => 0 <= s) sizes -> 0 <= total sizes.
Proof.
  induction 1 as [| s rest Hs _ IH]; simpl; lia.
Qed.

Lemma layout_sizes : forall sizes a, map snd (layout a sizes) = sizes.
Proof.
  induction sizes as [| s rest IH]; intros a; simpl; [reflexivity|].
  now rewrite IH.
Qed.

(** Every range of a layout lies between its first address and that
    address plus the total. *)
Lemma layout_within :
  forall sizes a,
    Forall (fun s => 0 <= s) sizes ->
    Forall (fun r => a <= fst r /\ fst r + snd r <= a + total sizes)
           (layout a sizes).
Proof.
  induction sizes as [| s rest IH]; intros a Hs; simpl.
  - constructor.
  - inversion Hs as [| ? ? Hs0 Hrest]; subst.
    pose proof (total_nonneg rest Hrest) as Ht.
    constructor.
    + simpl. lia.
    + specialize (IH (a + s) Hrest).
      eapply Forall_impl; [| exact IH].
      intros r [H1 H2]. lia.
Qed.

(** A range placed earlier ends before any range placed later begins. *)
Lemma layout_ordered :
  forall sizes a i j ri rj,
    Forall (fun s => 0 <= s) sizes ->
    nth_error (layout a sizes) i = Some ri ->
    nth_error (layout a sizes) j = Some rj ->
    (i < j)%nat ->
    fst ri + snd ri <= fst rj.
Proof.
  induction sizes as [| s rest IH]; intros a i j ri rj Hs Hi Hj Hij.
  - destruct i; discriminate.
  - inversion Hs as [| ? ? Hs0 Hrest]; subst.
    destruct j as [| j]; [lia|].
    destruct i as [| i]; simpl in Hi, Hj.
    + inversion Hi; subst; simpl.
      pose proof (layout_within rest (a + s) Hrest) as Hw.
      rewrite Forall_forall in Hw.
      apply nth_error_In in Hj. apply Hw in Hj. simpl in Hj. lia.
    + eapply IH; eauto. lia.
Qed.

Lemma layout_pairwise_disjoint :
  forall sizes a,
    Forall (fun s => 0 <= s) sizes -> pairwise_disjoint (layout a sizes).
Proof.
  intros sizes a Hs i j ri rj Hi Hj Hij b Hbi Hbj.
  unfold contains in *.
  destruct (Nat.lt_ge_cases i j) as [Hlt | Hge].
  - pose proof (layout_ordered sizes a i j ri rj Hs Hi Hj Hlt). lia.
  - assert (Hlt : (j < i)%nat) by lia.
    pose proof (layout_ordered sizes a j i rj ri Hs Hj Hi Hlt). lia.
Qed.

End RangeFacts.

(* ===================================================================== *)
(** * The custom allocator of DynamicMemoryAllocation.c *)
(* ===================================================================== *)

Module FixedFacts.
Import DynamicMemoryAllocation.Fixed MachineFacts Range RangeFacts.

(** Case analysis on the capacity test of the allocators. *)
Ltac case_gtb :=
  match goal with
  | |- context [?a >? ?b] =>
      rewrite (Z.gtb_ltb a b); destruct (Z.ltb_spec b a)
  end.

Lemma pool_alloc_rejects :
  forall pool size,
    size_add (used pool) size > capacity pool ->
    pool_alloc pool size = (NULL, pool).
Proof.
  intros pool size H. unfold pool_alloc. case_gtb; [reflexivity | lia].
Qed.

Lemma pool_alloc_accepts :
  forall pool size,
    size_add (used pool) size <= capacity pool ->
    pool_alloc pool size =
    (memory pool + used pool,
     {| memory := memory pool;
        used := size_add (used pool) size;
        capacity := capacity pool |}).
Proof.
  intros pool size H. unfold pool_alloc. case_gtb; [lia | reflexivity].
Qed.

Lemma pool_alloc_fits :
  forall pool size,
    pool_ok pool -> 0 <= size -> used pool + size <= capacity pool ->
    pool_alloc pool size =
    (memory pool + used pool,
     {| memory := memory pool;
        used := used pool + size;
        capacity := capacity pool |}).
Proof.
  intros pool size (Hm & Hu & Hc) Hs Hfit.
  assert (E : size_add (used pool) size = used pool + size)
    by (apply size_add_exact; lia).
  rewrite pool_alloc_accepts; rewrite E; [reflexivity | lia].
Qed.

(** [used <= capacity] survives every call, whatever the size: the sum
    the test looks at is the value stored. *)
Lemma pool_alloc_keeps_bounds :
  forall pool size,
    0 <= used pool <= capacity pool ->
    let pool' := snd (pool_alloc pool size) in
    0 <= used pool' <= capacity pool' /\
    capacity pool' = capacity pool /\ memory pool' = memory pool.
Proof.
  intros pool size Hu. unfold pool_alloc. case_gtb; simpl.
  - repeat split; lia.
  - pose proof (size_add_bounds (used pool) size). repeat split; lia.
Qed.

(** A pointer returned for a consistent pool is [NULL] only when the
    capacity test rejected the request. *)
Lemma pool_alloc_null :
  forall pool size,
    pool_ok pool ->
    fst (pool_alloc pool size) = NULL ->
    size_add (used pool) size > capacity pool.
Proof.
  intros pool size (Hm & Hu & Hc). unfold pool_alloc. case_gtb; simpl.
  - lia.
  - unfold NULL. lia.
Qed.

Lemma pool_alloc_all_layout :
  forall sizes pool,
    pool_ok pool ->
    Forall (fun s => 0 <= s) sizes ->
    used pool + total sizes <= capacity pool ->
    fst (pool_alloc_all pool sizes) = layout (memory pool + used pool) sizes.
Proof.
  induction sizes as [| s rest IH]; intros pool Hok Hs Hfit; simpl.
  - reflexivity.
  - inversion Hs as [| ? ? Hs0 Hrest]; subst. simpl in Hfit.
    pose proof (total_nonneg rest Hrest) as Ht.
    rewrite pool_alloc_fits by (auto; lia).
    specialize (IH {| memory := memory pool;
                      used := used pool + s;
                      capacity := capacity pool |}).
    destruct Hok as (Hm & Hu & Hc).
    destruct (pool_alloc_all _ rest) as [ps pool''] eqn:E.
    simpl in *. rewrite IH; [| repeat split; simpl; lia | assumption | lia].
    now rewrite Z.add_assoc.
Qed.

Section WithAllocator.
Context {heap : Type} {SA : SystemAllocator heap}.

(** What [create_pool] hands back when it hands back a pool. *)
Lemma create_pool_some :
  forall cap h pool h',
    create_pool cap h = (Some pool, h') ->
    used pool = 0 /\ capacity pool = cap.
Proof.
  intros c h pool h'. unfold create_pool, bind, ret.
  destruct (malloc sizeof_three_words h) as [p h1].
  destruct (p =? NULL); [discriminate|].
  destruct (malloc c h1) as [m h2].
  intros E; inversion E; subst. split; reflexivity.
Qed.

End WithAllocator.

End FixedFacts.

(* ===================================================================== *)
(** * The static pools and the arena *)
(* ===================================================================== *)

Module MemoryLeaksFacts.
Import MemoryLeaks MachineFacts Range RangeFacts.
Import FixedFacts.

Lemma static_pool_alloc_rejects :
  forall memory_pool pool_index size,
    size_add pool_index size > POOL_SIZE ->
    pool_alloc memory_pool pool_index size = (NULL, pool_index).
Proof.
  intros mp idx size H. unfold pool_alloc. case_gtb; [reflexivity | lia].
Qed.

Lemma static_pool_alloc_fits :
  forall memory_pool pool_index size,
    0 <= pool_index -> 0 <= size -> pool_index + size <= POOL_SIZE ->
    pool_alloc memory_pool pool_index size =
    (memory_pool + pool_index, pool_index + size).
Proof.
  intros mp idx size Hi Hs Hfit.
  assert (E : size_add idx size = idx + size).
  { apply size_add_exact; try lia.
    unfold POOL_SIZE in Hfit. unfold SIZE_MAX, SIZE_MODULUS. lia. }
  unfold pool_alloc. rewrite E. case_gtb; [lia | reflexivity].
Qed.

Lemma static_pool_alloc_null :
  forall memory_pool pool_index size,
    0 < memory_pool -> 0 <= pool_index ->
    fst (pool_alloc memory_pool pool_index size) = NULL ->
    size_add pool_index size > POOL_SIZE.
Proof.
  intros mp idx size Hm Hi. unfold pool_alloc. case_gtb; simpl.
  - lia.
  - unfold NULL. lia.
Qed.

Lemma static_pool_alloc_all_layout :
  forall sizes memory_pool pool_index,
    0 <= pool_index ->
    Forall (fun s => 0 <= s) sizes ->
    pool_index + total sizes <= POOL_SIZE ->
    fst (pool_alloc_all memory_pool pool_index sizes) =
    layout (memory_pool + pool_index) sizes.
Proof.
  induction sizes as [| s rest IH]; intros mp idx Hi Hs Hfit; simpl.
  - reflexivity.
  - inversion Hs as [| ? ? Hs0 Hrest]; subst. simpl in Hfit.
    pose proof (total_nonneg rest Hrest) as Ht.
    rewrite static_pool_alloc_fits by lia.
    specialize (IH mp (idx + s)).
    destruct (pool_alloc_all mp (idx + s) rest) as [ps idx''] eqn:E.
    simpl in *. rewrite IH; [| lia | assumption | lia].
    now rewrite Z.add_assoc.
Qed.

End MemoryLeaksFacts.

Module StackVHeapFacts.
Import StackVHeap MachineFacts.
Import FixedFacts.

Lemma pool_alloc_start :
  forall memory_pool pool_index size,
    0 < memory_pool -> 0 <= pool_index ->
    fst (pool_alloc memory_pool pool_index size) <> NULL ->
    fst (pool_alloc memory_pool pool_index size) = memory_pool + pool_index.
Proof.
  intros mp idx size Hm Hi. unfold pool_alloc. case_gtb; simpl.
  - intros Hnull. now elim Hnull.
  - reflexivity.
Qed.

Lemma arena_alloc_rejects :
  forall arena sz,
    size_add (used arena) sz > size arena ->
    arena_alloc arena sz = (NULL, arena).
Proof.
  intros arena sz H. unfold arena_alloc. case_gtb; [reflexivity | lia].
Qed.

Lemma arena_alloc_null :
  forall arena sz,
    arena_ok arena ->
    fst (arena_alloc arena sz) = NULL ->
    size_add (used arena) sz > size arena.
Proof.
  intros arena sz (Hm & Hu & Hc). unfold arena_alloc. case_gtb; simpl.
  - lia.
  - unfold NULL. lia.
Qed.

End StackVHeapFacts.

(* ===================================================================== *)
(** * The chained pool of DynamicMemoryAllocation.c *)
(* ===================================================================== *)

Module ChainedFacts.
Import DynamicMemoryAllocation.Chained MachineFacts.

Section WithAllocator.
Context {heap : Type} {SA : SystemAllocator heap}.

(** A block made by [create_pool] is empty, unlinked, and -- when the
    allocator gave one -- backed by [POOL_BLOCK_SIZE] bytes. *)
Lemma create_pool_block :
  forall h np h',
    create_pool h = (Some np, h') ->
    used np = 0 /\ next np = None /\
    (memory np <> NULL -> block_size h' (memory np) = Some POOL_BLOCK_SIZE).
Proof.
  intros h np h'. unfold create_pool, bind, ret.
  destruct (malloc sizeof_three_words h) as [p h1].
  destruct (p =? NULL); [discriminate|].
  destruct (malloc POOL_BLOCK_SIZE h1) as [m h2] eqn:Em.
  intros E; inversion E; subst; simpl.
  repeat split. intros Hm. eapply malloc_block_size; eauto.
Qed.

(** The exhausted branch of [pool_alloc], in terms of what
    [create_pool] answered. *)
Lemma pool_alloc_exhausted :
  forall pool size h,
    (pool = None \/
     exists cur, pool = Some cur /\ size_add (used cur) size > POOL_BLOCK_SIZE) ->
    pool_alloc pool size h =
    match create_pool h with
    | (None, h') => ((NULL, pool), h')
    | (Some np, h') =>
        (take {| memory := memory np; used := used np; next := pool |} size, h')
    end.
Proof.
  intros pool size h Hex.
  destruct Hex as [-> | (cur & -> & Hgt)]; unfold pool_alloc; cbv zeta.
  - unfold bind, ret. destruct (create_pool h) as [[np |] h']; reflexivity.
  - rewrite Z.gtb_ltb.
    destruct (Z.ltb_spec POOL_BLOCK_SIZE (size_add (used cur) size)); [| lia].
    unfold bind, ret. destruct (create_pool h) as [[np |] h']; reflexivity.
Qed.

(** The other branch: the current block takes the request. *)
Lemma pool_alloc_current :
  forall cur size h,
    size_add (used cur) size <= POOL_BLOCK_SIZE ->
    pool_alloc (Some cur) size h = (take cur size, h).
Proof.
  intros cur size h Hle. unfold pool_alloc. cbv zeta.
  rewrite Z.gtb_ltb.
  destruct (Z.ltb_spec POOL_BLOCK_SIZE (size_add (used cur) size)); [lia|].
  reflexivity.
Qed.

End WithAllocator.

End ChainedFacts.

(* ===================================================================== *)
(** * Properties of the arena specification, on the code *)
(* ===================================================================== *)

Import Range SysHeap.
Module Pool := DynamicMemoryAllocation.Fixed.
Module Chain := DynamicMemoryAllocation.Chained.

(** Unfolds a consistency predicate and the machine constants so that
    [lia] can finish. *)
Ltac ok_by_lia :=
  unfold Pool.pool_ok, StackVHeap.arena_ok, SIZE_MAX, SIZE_MODULUS, NULL;
  simpl; lia.

(** C2 (non-aliasing).  A run of [pool_alloc] calls whose sizes together
    fit in what is left of the block succeeds at every call, and the
    ranges handed out lie inside the block and are pairwise disjoint: no
    byte of one is part of another, earlier or later.  This holds for
    the heap-backed pool of DynamicMemoryAllocation.c and for the static
    pool of MemoryLeaks.c. *)
Theorem allocated_ranges_pairwise_disjoint :
  (forall pool sizes,
      Pool.pool_ok pool ->
      Forall (fun s => 0 <= s) sizes ->
      Pool.used pool + total sizes
        <= Pool.capacity pool ->
      well_placed (Pool.memory pool)
                  (Pool.capacity pool)
                  sizes
                  (fst (Pool.pool_alloc_all pool sizes)))
  /\
  (forall memory_pool pool_index sizes,
      0 < memory_pool -> 0 <= pool_index ->
      Forall (fun s => 0 <= s) sizes ->
      pool_index + total sizes <= MemoryLeaks.POOL_SIZE ->
      well_placed memory_pool MemoryLeaks.POOL_SIZE sizes
                  (fst (MemoryLeaks.pool_alloc_all memory_pool pool_index sizes))).
Proof.
  assert (Hlayout : forall base start len sizes,
             0 < base -> 0 <= start ->
             Forall (fun s => 0 <= s) sizes ->
             start + total sizes <= len ->
             well_placed base len sizes (layout (base + start) sizes)).
  { intros base start len sizes Hb Hst Hs Hfit.
    unfold well_placed. split; [apply RangeFacts.layout_sizes|]. split.
    - pose proof (RangeFacts.layout_within sizes (base + start) Hs) as Hw.
      eapply Forall_impl; [| exact Hw].
      intros r [H1 H2]. unfold within, NULL. lia.
    - now apply RangeFacts.layout_pairwise_disjoint. }
  split.
  - intros pool sizes Hok Hs Hfit.
    rewrite FixedFacts.pool_alloc_all_layout by assumption.
    destruct Hok as (Hm & Hu & Hc). apply Hlayout; auto; lia.
  - intros mp idx sizes Hm Hi Hs Hfit.
    rewrite MemoryLeaksFacts.static_pool_alloc_all_layout by assumption.
    now apply Hlayout.
Qed.

Lemma allocated_ranges_pairwise_disjoint_witness :
  let pool := {| Pool.memory := 4128;
                 Pool.used := 0;
                 Pool.capacity := 64 |} in
  let sizes := [10; 10; 44] in
  Pool.pool_ok pool /\
  Forall (fun s => 0 <= s) sizes /\
  Pool.used pool + total sizes
    <= Pool.capacity pool /\
  well_placed 4128 64 sizes
              (fst (Pool.pool_alloc_all pool sizes)).
Proof.
  intros pool sizes.
  assert (Hok : Pool.pool_ok pool) by ok_by_lia.
  assert (Hs : Forall (fun s => 0 <= s) sizes).
  { repeat constructor; lia. }
  assert (Hfit : Pool.used pool + total sizes
                 <= Pool.capacity pool).
  { simpl. lia. }
  split; [exact Hok | split; [exact Hs | split; [exact Hfit |]]].
  exact (proj1 allocated_ranges_pairwise_disjoint pool sizes Hok Hs Hfit).
Defined.

(* --------------------------------------------------------------------- *)
(** ** Placement: offsets, rounding, alignment *)
(* --------------------------------------------------------------------- *)

(** C3 as stated does not hold: [pool_alloc] has no alignment argument
    and never rounds [used].  After [create_pool(64)] and a 10-byte
    allocation, a 4-byte request with alignment 4 fits and, by the
    specification, would be placed at offset 12 and leave [used = 16];
    the code places it at offset 10 and leaves [used = 14]. *)
Lemma pool_alloc_does_not_round_used :
  let pool0 := {| Pool.memory := 4128; Pool.used := 0; Pool.capacity := 64 |} in
  let pool1 := snd (Pool.pool_alloc pool0 10) in
  fst (Pool.create_pool 64 Scenarios.roomy) = Some pool0 /\
  Pool.used pool1 = 10 /\
  ArenaSpec.is_power_of_two 4 = true /\
  ArenaSpec.aligned_fits (Pool.used pool1) 4 4 (Pool.capacity pool1) = true /\
  ArenaSpec.round_up (Pool.used pool1) 4 = 12 /\
  Pool.pool_alloc pool1 4 =
  (4128 + 10, {| Pool.memory := 4128; Pool.used := 14; Pool.capacity := 64 |}).
Proof. vm_compute. repeat split; reflexivity. Qed.

(** C3, amended.  A [pool_alloc] call that fits in the block
    ([used + size <= capacity]) returns the range that starts at offset
    [used] -- which is [used] rounded up to a multiple of 1, the only
    alignment the code knows -- and sets [used] to that offset plus
    [size].  On a fresh pool of capacity 64, two 10-byte allocations
    return offsets 0 and 10 and leave [used = 20]. *)
Theorem pool_alloc_bumps_used_by_size :
  (forall pool size,
      Pool.pool_ok pool -> 0 <= size ->
      Pool.used pool + size <= Pool.capacity pool ->
      ArenaSpec.round_up (Pool.used pool) 1 = Pool.used pool /\
      Pool.pool_alloc pool size =
      (Pool.memory pool + Pool.used pool,
       {| Pool.memory := Pool.memory pool;
          Pool.used := Pool.used pool + size;
          Pool.capacity := Pool.capacity pool |}))
  /\
  (forall (heap : Type) (SA : SystemAllocator heap) h pool h',
      Pool.create_pool 64 h = (Some pool, h') ->
      0 < Pool.memory pool ->
      exists pool1 pool2,
        Pool.pool_alloc pool 10 = (Pool.memory pool + 0, pool1) /\
        Pool.pool_alloc pool1 10 = (Pool.memory pool + 10, pool2) /\
        Pool.used pool2 = 20).
Proof.
  split.
  - intros pool size Hok Hs Hfit. split.
    + unfold ArenaSpec.round_up.
      replace (Pool.used pool + 1 - 1) with (Pool.used pool) by lia.
      rewrite Z.div_1_r. lia.
    + now apply FixedFacts.pool_alloc_fits.
  - intros heap SA h pool h' Hc Hm.
    destruct (FixedFacts.create_pool_some _ _ _ _ Hc) as [Hu Hcap].
    destruct pool as [m u c]. simpl in *. subst u c.
    eexists. eexists. split; [| split].
    + rewrite FixedFacts.pool_alloc_fits by ok_by_lia. simpl. reflexivity.
    + rewrite FixedFacts.pool_alloc_fits by ok_by_lia. simpl. reflexivity.
    + reflexivity.
Qed.

Lemma pool_alloc_bumps_used_by_size_witness :
  let pool := {| Pool.memory := 4128; Pool.used := 0; Pool.capacity := 64 |} in
  Pool.pool_ok pool /\ 0 <= 10 /\ Pool.used pool + 10 <= Pool.capacity pool /\
  Pool.pool_alloc pool 10 =
  (4128 + 0, {| Pool.memory := 4128; Pool.used := 0 + 10; Pool.capacity := 64 |}).
Proof.
  intros pool.
  assert (Hok : Pool.pool_ok pool) by ok_by_lia.
  assert (Hs : 0 <= 10) by lia.
  assert (Hfit : Pool.used pool + 10 <= Pool.capacity pool) by (simpl; lia).
  split; [exact Hok | split; [exact Hs | split; [exact Hfit |]]].
  exact (proj2 (proj1 pool_alloc_bumps_used_by_size pool 10 Hok Hs Hfit)).
Defined.

(** C4 as stated does not hold.  Scenario 3 on the code: on a fresh pool
    of capacity 64 whose block starts at the 8-aligned address 4128, the
    first one-byte allocation returns offset 0 and the second returns
    offset 1, an address that is 1 modulo 8, not offset 8. *)
Lemma second_one_byte_allocation_is_misaligned :
  let pool0 := {| Pool.memory := 4128; Pool.used := 0; Pool.capacity := 64 |} in
  let pool1 := snd (Pool.pool_alloc pool0 1) in
  fst (Pool.create_pool 64 Scenarios.roomy) = Some pool0 /\
  4128 mod 8 = 0 /\
  ArenaSpec.round_up (Pool.used pool1) 8 = 8 /\
  fst (Pool.pool_alloc pool0 1) = 4128 + 0 /\
  fst (Pool.pool_alloc pool1 1) = 4128 + 1 /\
  fst (Pool.pool_alloc pool1 1) mod 8 = 1.
Proof. vm_compute. repeat split; reflexivity. Qed.

(** C4, amended.  Every range returned by [pool_alloc] starts at the
    block's address plus the value [used] had before the call, whatever
    alignment the caller had in mind: the start is a multiple of an
    alignment only if that sum already is.  This holds for the pool of
    DynamicMemoryAllocation.c and the static pool of StackVHeap.c.  On a
    fresh pool of capacity 64, the first one-byte allocation returns
    offset 0 and the second returns offset 1. *)
Theorem returned_start_is_base_plus_used :
  (forall pool size,
      Pool.pool_ok pool ->
      fst (Pool.pool_alloc pool size) <> NULL ->
      fst (Pool.pool_alloc pool size) = Pool.memory pool + Pool.used pool)
  /\
  (forall memory_pool pool_index size,
      0 < memory_pool -> 0 <= pool_index ->
      fst (StackVHeap.pool_alloc memory_pool pool_index size) <> NULL ->
      fst (StackVHeap.pool_alloc memory_pool pool_index size)
      = memory_pool + pool_index)
  /\
  (forall base,
      0 < base ->
      let pool0 := {| Pool.memory := base; Pool.used := 0; Pool.capacity := 64 |} in
      fst (Pool.pool_alloc pool0 1) = base + 0 /\
      fst (Pool.pool_alloc (snd (Pool.pool_alloc pool0 1)) 1) = base + 1).
Proof.
  split; [| split].
  - intros pool size _. unfold Pool.pool_alloc. FixedFacts.case_gtb; simpl.
    + intros Hnull. now elim Hnull.
    + reflexivity.
  - apply StackVHeapFacts.pool_alloc_start.
  - intros base Hb pool0. subst pool0.
    rewrite FixedFacts.pool_alloc_fits by ok_by_lia. cbn [fst snd].
    rewrite FixedFacts.pool_alloc_fits by ok_by_lia. cbn [fst snd].
    split; reflexivity.
Qed.

Lemma returned_start_is_base_plus_used_witness :
  let pool := {| Pool.memory := 4128; Pool.used := 1; Pool.capacity := 64 |} in
  Pool.pool_ok pool /\
  fst (Pool.pool_alloc pool 1) <> NULL /\
  fst (Pool.pool_alloc pool 1) = 4128 + 1.
Proof.
  intros pool.
  assert (Hok : Pool.pool_ok pool) by ok_by_lia.
  assert (Hp : fst (Pool.pool_alloc pool 1) <> NULL) by (vm_compute; discriminate).
  split; [exact Hok | split; [exact Hp |]].
  exact (proj1 returned_start_is_base_plus_used pool 1 Hok Hp).
Defined.

(* --------------------------------------------------------------------- *)
(** ** Failure of the fixed-capacity pool *)
(* --------------------------------------------------------------------- *)

(** C6 as stated does not hold, for two requests made after
    [create_pool(16)] and a 10-byte allocation.  A one-byte request with
    alignment 8 does not fit once aligned (16 + 1 > 16), yet the code,
    which knows no alignment, serves it at offset 10.  A request of
    [SIZE_MAX] bytes does not fit either, yet [used + size] wraps around
    to 9, the test passes, and the code returns offset 10. *)
Lemma pool_alloc_serves_requests_that_do_not_fit :
  let pool0 := {| Pool.memory := 4128; Pool.used := 0; Pool.capacity := 16 |} in
  let pool1 := snd (Pool.pool_alloc pool0 10) in
  fst (Pool.create_pool 16 Scenarios.roomy) = Some pool0 /\
  Pool.used pool1 = 10 /\
  ArenaSpec.aligned_fits (Pool.used pool1) 1 8 (Pool.capacity pool1) = false /\
  Pool.pool_alloc pool1 1 =
  (4128 + 10, {| Pool.memory := 4128; Pool.used := 11; Pool.capacity := 16 |}) /\
  (Pool.used pool1 + SIZE_MAX <=? Pool.capacity pool1) = false /\
  Pool.pool_alloc pool1 SIZE_MAX =
  (4128 + 10, {| Pool.memory := 4128; Pool.used := 9; Pool.capacity := 16 |}).
Proof. vm_compute. repeat split; reflexivity. Qed.

(** C6, amended.  In the fixed-capacity pool, a [pool_alloc] call whose
    size does not fit in what is left of the block
    ([used + size > capacity], the sum being representable in [size_t])
    fails: it returns [NULL], the only failure the code reports, and the
    pool is as before.  After [create_pool(16)] and a successful 10-byte
    allocation, a second 10-byte allocation fails. *)
Theorem pool_alloc_fails_when_block_is_full :
  (forall pool size,
      Pool.pool_ok pool -> 0 <= size ->
      Pool.used pool + size <= SIZE_MAX ->
      Pool.used pool + size > Pool.capacity pool ->
      Pool.pool_alloc pool size = (NULL, pool))
  /\
  (forall (heap : Type) (SA : SystemAllocator heap) h pool h',
      Pool.create_pool 16 h = (Some pool, h') ->
      0 < Pool.memory pool ->
      exists pool1,
        Pool.pool_alloc pool 10 = (Pool.memory pool + 0, pool1) /\
        Pool.memory pool + 0 <> NULL /\
        Pool.pool_alloc pool1 10 = (NULL, pool1)).
Proof.
  split.
  - intros pool size (Hm & Hu & Hc) Hs Hrep Hfull.
    apply FixedFacts.pool_alloc_rejects.
    rewrite MachineFacts.size_add_exact by lia. exact Hfull.
  - intros heap SA h pool h' Hc Hm.
    destruct (FixedFacts.create_pool_some _ _ _ _ Hc) as [Hu Hcap].
    destruct pool as [m u c]. simpl in *. subst u c.
    eexists. split; [| split].
    + rewrite FixedFacts.pool_alloc_fits by ok_by_lia. cbn. reflexivity.
    + unfold NULL. lia.
    + apply FixedFacts.pool_alloc_rejects. vm_compute. reflexivity.
Qed.

Lemma pool_alloc_fails_when_block_is_full_witness :
  let pool := {| Pool.memory := 4128; Pool.used := 10; Pool.capacity := 16 |} in
  Pool.pool_ok pool /\ 0 <= 10 /\
  Pool.used pool + 10 <= SIZE_MAX /\
  Pool.used pool + 10 > Pool.capacity pool /\
  Pool.pool_alloc pool 10 = (NULL, pool).
Proof.
  intros pool.
  assert (Hok : Pool.pool_ok pool) by ok_by_lia.
  assert (Hs : 0 <= 10) by lia.
  assert (Hrep : Pool.used pool + 10 <= SIZE_MAX) by ok_by_lia.
  assert (Hfull : Pool.used pool + 10 > Pool.capacity pool) by (simpl; lia).
  split; [exact Hok | split; [exact Hs | split; [exact Hrep | split; [exact Hfull |]]]].
  exact (proj1 pool_alloc_fails_when_block_is_full pool 10 Hok Hs Hrep Hfull).
Defined.

(** C8 as stated does not hold: a request of size 0 succeeds.  On a fresh
    pool of capacity 64, [pool_alloc(pool, 0)] returns the block's
    address, not [NULL], and leaves the pool as it was. *)
Lemma zero_size_allocation_succeeds :
  let pool0 := {| Pool.memory := 4128; Pool.used := 0; Pool.capacity := 64 |} in
  fst (Pool.create_pool 64 Scenarios.roomy) = Some pool0 /\
  Pool.pool_alloc pool0 0 = (4128, pool0) /\
  (4128 =? NULL) = false.
Proof. vm_compute. repeat split; reflexivity. Qed.

(** C8, amended.  [pool_alloc] validates nothing: it takes no alignment,
    so none is rejected, and a request of size 0 on a consistent pool
    succeeds, returning the current position and leaving the pool
    unchanged.  The only failure is the full block: for a size whose sum
    with [used] is representable, the call returns [NULL] exactly when
    [used + size > capacity]. *)
Theorem pool_alloc_rejects_only_what_does_not_fit :
  (forall pool,
      Pool.pool_ok pool ->
      Pool.pool_alloc pool 0 = (Pool.memory pool + Pool.used pool, pool) /\
      Pool.memory pool + Pool.used pool <> NULL)
  /\
  (forall pool size,
      Pool.pool_ok pool -> 0 <= size ->
      Pool.used pool + size <= SIZE_MAX ->
      (fst (Pool.pool_alloc pool size) = NULL
       <-> Pool.used pool + size > Pool.capacity pool)).
Proof.
  split.
  - intros pool Hok. pose proof Hok as (Hm & Hu & Hc). split.
    + rewrite FixedFacts.pool_alloc_fits by (auto; lia).
      rewrite Z.add_0_r. destruct pool; reflexivity.
    + unfold NULL. lia.
  - intros pool size Hok Hs Hrep. pose proof Hok as (Hm & Hu & Hc). split.
    + intros Hnull. apply FixedFacts.pool_alloc_null in Hnull; [| exact Hok].
      rewrite MachineFacts.size_add_exact in Hnull by lia. exact Hnull.
    + intros Hfull. rewrite FixedFacts.pool_alloc_rejects; [reflexivity|].
      rewrite MachineFacts.size_add_exact by lia. exact Hfull.
Qed.

Lemma pool_alloc_rejects_only_what_does_not_fit_witness :
  let pool := {| Pool.memory := 4128; Pool.used := 20; Pool.capacity := 64 |} in
  Pool.pool_ok pool /\
  Pool.pool_alloc pool 0 = (4128 + 20, pool) /\
  4128 + 20 <> NULL.
Proof.
  intros pool.
  assert (Hok : Pool.pool_ok pool) by ok_by_lia.
  split; [exact Hok |].
  exact (proj1 pool_alloc_rejects_only_what_does_not_fit pool Hok).
Defined.

(** C10 (a failed allocation changes nothing).  When an allocation on a
    consistent fixed-capacity pool returns [NULL], the capacity test
    rejected the request and the state after the call is the state
    before it -- address of the block, [used] and capacity alike -- so
    every later call behaves as if the failed one had not been made.
    This holds for [pool_alloc] of DynamicMemoryAllocation.c,
    [arena_alloc] of StackVHeap.c and the static [pool_alloc] of
    MemoryLeaks.c. *)
Theorem failed_allocation_leaves_state_unchanged :
  (forall pool size,
      Pool.pool_ok pool ->
      fst (Pool.pool_alloc pool size) = NULL ->
      snd (Pool.pool_alloc pool size) = pool /\
      forall size',
        Pool.pool_alloc (snd (Pool.pool_alloc pool size)) size'
        = Pool.pool_alloc pool size')
  /\
  (forall arena sz,
      StackVHeap.arena_ok arena ->
      fst (StackVHeap.arena_alloc arena sz) = NULL ->
      snd (StackVHeap.arena_alloc arena sz) = arena /\
      forall sz',
        StackVHeap.arena_alloc (snd (StackVHeap.arena_alloc arena sz)) sz'
        = StackVHeap.arena_alloc arena sz')
  /\
  (forall memory_pool pool_index size,
      0 < memory_pool -> 0 <= pool_index ->
      fst (MemoryLeaks.pool_alloc memory_pool pool_index size) = NULL ->
      snd (MemoryLeaks.pool_alloc memory_pool pool_index size) = pool_index /\
      forall size',
        MemoryLeaks.pool_alloc memory_pool
          (snd (MemoryLeaks.pool_alloc memory_pool pool_index size)) size'
        = MemoryLeaks.pool_alloc memory_pool pool_index size').
Proof.
  split; [| split].
  - intros pool size Hok Hnull.
    apply FixedFacts.pool_alloc_null in Hnull; [| exact Hok].
    rewrite (FixedFacts.pool_alloc_rejects pool size Hnull).
    split; reflexivity.
  - intros arena sz Hok Hnull.
    apply StackVHeapFacts.arena_alloc_null in Hnull; [| exact Hok].
    rewrite (StackVHeapFacts.arena_alloc_rejects arena sz Hnull).
    split; reflexivity.
  - intros mp idx size Hm Hi Hnull.
    apply MemoryLeaksFacts.static_pool_alloc_null in Hnull; [| assumption ..].
    rewrite (MemoryLeaksFacts.static_pool_alloc_rejects mp idx size Hnull).
    split; reflexivity.
Qed.

Lemma failed_allocation_leaves_state_unchanged_witness :
  let pool := {| Pool.memory := 4128; Pool.used := 10; Pool.capacity := 16 |} in
  Pool.pool_ok pool /\
  fst (Pool.pool_alloc pool 10) = NULL /\
  snd (Pool.pool_alloc pool 10) = pool /\
  Pool.pool_alloc (snd (Pool.pool_alloc pool 10)) 4 = Pool.pool_alloc pool 4.
Proof.
  intros pool.
  assert (Hok : Pool.pool_ok pool) by ok_by_lia.
  assert (Hnull : fst (Pool.pool_alloc pool 10) = NULL) by reflexivity.
  split; [exact Hok | split; [exact Hnull |]].
  destruct (proj1 failed_allocation_leaves_state_unchanged pool 10 Hok Hnull)
    as [Hsame Hlater].
  split; [exact Hsame | exact (Hlater 4)].
Defined.

(* --------------------------------------------------------------------- *)
(** ** Growth of the chained pool *)
(* --------------------------------------------------------------------- *)

(** C5 as stated does not hold: the new block makes no allowance for
    alignment.  On a chained pool whose current block has 1000 bytes in
    use, a request of 1024 bytes with alignment 8 cannot be served by the
    current block; the specification's size for the new block is
    [max(1024, 1024 + 8 - 1) = 1031], and the code asks the allocator for
    1024 bytes.  (The request itself is no larger than a block, and the
    code serves it from the new block's first byte.) *)
Lemma chained_block_size_ignores_alignment :
  let pool0 := fst (Chain.create_pool Scenarios.roomy) in
  let h1 := snd (Chain.create_pool Scenarios.roomy) in
  let r1 := Chain.pool_alloc pool0 1000 h1 in
  let pool1 := snd (fst r1) in
  let r2 := Chain.pool_alloc pool1 1024 (snd r1) in
  pool1 = Some {| Chain.memory := 4128; Chain.used := 1000; Chain.next := None |} /\
  (1024 <=? Chain.POOL_BLOCK_SIZE) = true /\
  ArenaSpec.is_power_of_two 8 = true /\
  ArenaSpec.chained_block_size Chain.POOL_BLOCK_SIZE 1024 8 = 1031 /\
  fst r2 = (5184, Some {| Chain.memory := 5184; Chain.used := 1024; Chain.next := pool1 |}) /\
  block_size (snd r2) 5184 = Some 1024 /\
  (1031 =? 1024) = false.
Proof. vm_compute. repeat split; reflexivity. Qed.

(** C5, amended.  In the chained pool, whenever the current block cannot
    take a request of at most [POOL_BLOCK_SIZE] bytes (there is no block,
    or [used + size] exceeds [POOL_BLOCK_SIZE]), [pool_alloc] calls
    [create_pool].  If that returns [NULL], so does [pool_alloc], and the
    pool is left as it was.  Otherwise, the new block having its memory,
    that memory is a block of exactly [POOL_BLOCK_SIZE] bytes, with no
    allowance for alignment; the new block becomes the current block with
    the old one as its [next]; and the request is served from its first
    byte, so that the served range lies inside the new block. *)
Theorem chained_pool_alloc_installs_fixed_size_block :
  forall (heap : Type) (SA : SystemAllocator heap)
         (pool : option Chain.MemoryPool) (size : Z) (h : heap),
    0 <= size <= Chain.POOL_BLOCK_SIZE ->
    (pool = None \/
     exists cur,
       pool = Some cur /\
       size_add (Chain.used cur) size > Chain.POOL_BLOCK_SIZE) ->
    (fst (Chain.create_pool h) = None ->
     Chain.pool_alloc pool size h = ((NULL, pool), snd (Chain.create_pool h)))
    /\
    (forall np,
        fst (Chain.create_pool h) = Some np ->
        Chain.memory np <> NULL ->
        block_size (snd (Chain.create_pool h)) (Chain.memory np)
        = Some Chain.POOL_BLOCK_SIZE /\
        Chain.pool_alloc pool size h =
        ((Chain.memory np,
          Some {| Chain.memory := Chain.memory np;
                  Chain.used := size;
                  Chain.next := pool |}),
         snd (Chain.create_pool h)) /\
        within (Chain.memory np) Chain.POOL_BLOCK_SIZE (Chain.memory np, size)).
Proof.
  intros heap SA pool size h Hsize Hex.
  assert (Hmax : Chain.POOL_BLOCK_SIZE <= SIZE_MAX) by (vm_compute; discriminate).
  rewrite (ChainedFacts.pool_alloc_exhausted pool size h Hex).
  destruct (Chain.create_pool h) as [[np |] h'] eqn:Ec; simpl; split.
  - discriminate.
  - intros np' E Hmem; inversion E; subst np'.
    destruct (ChainedFacts.create_pool_block h np h' Ec) as (Hu & Hn & Hb).
    split; [exact (Hb Hmem) | split].
    + unfold Chain.take. simpl. rewrite Hu, Z.add_0_r.
      unfold size_add. simpl. rewrite MachineFacts.wrap_id by lia.
      reflexivity.
    + unfold within. simpl. lia.
  - reflexivity.
  - intros np E; discriminate.
Qed.

Lemma chained_pool_alloc_installs_fixed_size_block_witness :
  let h := Scenarios.roomy in
  let np := {| Chain.memory := 4128; Chain.used := 0; Chain.next := None |} in
  0 <= 16 <= Chain.POOL_BLOCK_SIZE /\
  fst (Chain.create_pool h) = Some np /\
  Chain.memory np <> NULL /\
  block_size (snd (Chain.create_pool h)) 4128 = Some Chain.POOL_BLOCK_SIZE /\
  Chain.pool_alloc None 16 h =
  ((4128, Some {| Chain.memory := 4128; Chain.used := 16; Chain.next := None |}),
   snd (Chain.create_pool h)) /\
  within 4128 Chain.POOL_BLOCK_SIZE (4128, 16).
Proof.
  intros h np.
  assert (Hsize : 0 <= 16 <= Chain.POOL_BLOCK_SIZE)
    by (unfold Chain.POOL_BLOCK_SIZE; lia).
  assert (Hex : @None Chain.MemoryPool = None \/
                exists cur,
                  None = Some cur /\
                  size_add (Chain.used cur) 16 > Chain.POOL_BLOCK_SIZE)
    by (left; reflexivity).
  assert (Hnp : fst (Chain.create_pool h) = Some np) by reflexivity.
  assert (Hmem : Chain.memory np <> NULL) by (vm_compute; discriminate).
  destruct (proj2 (chained_pool_alloc_installs_fixed_size_block
                     sys_heap sys_allocator None 16 h Hsize Hex) np Hnp Hmem)
    as (Hb & Hrun & Hin).
  split; [exact Hsize | split; [exact Hnp | split; [exact Hmem |]]].
  split; [exact Hb | split; [exact Hrun | exact Hin]].
Defined.

(** C1, evaluated where the code breaks it.  Chained pool: a 1025-byte
    request on a fresh pool is served from a new 1024-byte block, whose
    [used] becomes 1025; the returned range ends one byte past the block.
    Fixed pool: with [used = 8] and [capacity = 16], a request of
    [SIZE_MAX - 3] bytes makes [used + size] wrap around to 4; the test
    passes and the returned range, which starts at offset 8, ends far
    past the 16-byte block. *)
Theorem pool_alloc_reserves_past_the_block :
  let pool0 := fst (Chain.create_pool Scenarios.roomy) in
  let h1 := snd (Chain.create_pool Scenarios.roomy) in
  let r := Chain.pool_alloc pool0 1025 h1 in
  let fixed := {| Pool.memory := 4128; Pool.used := 8; Pool.capacity := 16 |} in
  (pool0 = Some {| Chain.memory := 4128; Chain.used := 0; Chain.next := None |} /\
   fst r = (5184, Some {| Chain.memory := 5184; Chain.used := 1025; Chain.next := pool0 |}) /\
   block_size (snd r) 5184 = Some Chain.POOL_BLOCK_SIZE /\
   Chain.POOL_BLOCK_SIZE < 1025 /\
   5184 + Chain.POOL_BLOCK_SIZE < 5184 + 1025)
  /\
  (Pool.pool_alloc fixed (SIZE_MAX - 3) =
   (4128 + 8, {| Pool.memory := 4128; Pool.used := 4; Pool.capacity := 16 |}) /\
   4128 + Pool.capacity fixed < (4128 + 8) + (SIZE_MAX - 3)).
Proof. vm_compute. repeat split; reflexivity. Qed.

(* --------------------------------------------------------------------- *)
(** ** Creation when the allocator has no block to give *)
(* --------------------------------------------------------------------- *)

(** C7, evaluated where the code breaks it.  The allocator has room for
    the 24-byte struct and none for a 1024-byte block.  [create_pool]
    tests only the first [malloc]: it returns a handle whose [memory] is
    [NULL] and whose [capacity] is 1024, and [pool_alloc] then accepts
    requests on it, the second one answered with address 40.  The chained
    [create_pool] and [create_arena] of StackVHeap.c do the same. *)
Theorem create_returns_handle_without_backing_block :
  let h0 := Scenarios.tight in
  let h1 := snd (malloc sizeof_three_words h0) in
  let broken := {| Pool.memory := NULL; Pool.used := 0; Pool.capacity := 1024 |} in
  (fst (malloc sizeof_three_words h0) = 4096 /\
   fst (malloc 1024 h1) = NULL /\
   fst (Pool.create_pool 1024 h0) = Some broken /\
   Pool.pool_alloc broken 40 =
   (NULL, {| Pool.memory := NULL; Pool.used := 40; Pool.capacity := 1024 |}) /\
   fst (Pool.pool_alloc (snd (Pool.pool_alloc broken 40)) 40) = 40)
  /\
  fst (Chain.create_pool h0)
  = Some {| Chain.memory := NULL; Chain.used := 0; Chain.next := None |}
  /\
  (fst (malloc 1024 h0) = NULL /\
   fst (StackVHeap.create_arena 1024 h0)
   = {| StackVHeap.start := NULL; StackVHeap.size := 1024; StackVHeap.used := 0 |}).
Proof. vm_compute. repeat split; reflexivity. Qed.

(* --------------------------------------------------------------------- *)
(** ** Reset of the static pool *)
(* --------------------------------------------------------------------- *)

(** C9 (reset).  After [pool_reset], the static pool of MemoryLeaks.c
    places allocations as it did when the program started: every call
    answers as it would on the fresh pool, and a request of at most
    [POOL_SIZE] bytes succeeds and returns the address of the pool's
    first byte.  In particular a 64-byte allocation, a reset and another
    64-byte allocation both succeed and return the same address, and so
    do two allocations of the whole capacity around a reset. *)
Theorem pool_reset_restores_fresh_placement :
  (forall memory_pool pool_index size,
      MemoryLeaks.pool_alloc memory_pool (MemoryLeaks.pool_reset pool_index) size
      = MemoryLeaks.pool_alloc memory_pool MemoryLeaks.pool_index_init size)
  /\
  (forall memory_pool pool_index size,
      0 < memory_pool -> 0 <= size <= MemoryLeaks.POOL_SIZE ->
      fst (MemoryLeaks.pool_alloc memory_pool (MemoryLeaks.pool_reset pool_index) size)
      = memory_pool /\
      memory_pool <> NULL)
  /\
  (forall memory_pool size,
      0 < memory_pool -> size = 64 \/ size = MemoryLeaks.POOL_SIZE ->
      let first := MemoryLeaks.pool_alloc memory_pool MemoryLeaks.pool_index_init size in
      let second :=
        MemoryLeaks.pool_alloc memory_pool (MemoryLeaks.pool_reset (snd first)) size in
      fst first = memory_pool /\ fst second = memory_pool /\ memory_pool <> NULL).
Proof.
  assert (Hfresh : forall memory_pool size,
             0 <= size <= MemoryLeaks.POOL_SIZE ->
             fst (MemoryLeaks.pool_alloc memory_pool 0 size) = memory_pool).
  { intros mp size Hs.
    rewrite MemoryLeaksFacts.static_pool_alloc_fits by lia.
    simpl. lia. }
  split; [| split].
  - reflexivity.
  - intros mp idx size Hm Hs. split; [now apply Hfresh | unfold NULL; lia].
  - intros mp size Hm Hsz first second.
    assert (Hs : 0 <= size <= MemoryLeaks.POOL_SIZE).
    { unfold MemoryLeaks.POOL_SIZE in *. lia. }
    subst first second. unfold MemoryLeaks.pool_reset, MemoryLeaks.pool_index_init.
    rewrite (Hfresh mp size Hs). repeat split. unfold NULL. lia.
Qed.

Lemma pool_reset_restores_fresh_placement_witness :
  0 < 8192 /\ 0 <= 1024 <= MemoryLeaks.POOL_SIZE /\
  fst (MemoryLeaks.pool_alloc 8192 (MemoryLeaks.pool_reset 1024) 1024) = 8192 /\
  8192 <> NULL.
Proof.
  assert (Hm : 0 < 8192) by lia.
  assert (Hs : 0 <= 1024 <= MemoryLeaks.POOL_SIZE)
    by (unfold MemoryLeaks.POOL_SIZE; lia).
  split; [exact Hm | split; [exact Hs |]].
  exact (proj1 (proj2 pool_reset_restores_fresh_placement) 8192 1024 1024 Hm Hs).
Defined.

(* --------------------------------------------------------------------- *)
(** ** What the capacity tests do guarantee *)
(* --------------------------------------------------------------------- *)

(** X1.  In the pools with a capacity test on every call, [used] never
    exceeds the capacity: for the pool of DynamicMemoryAllocation.c after
    any run of [pool_alloc] calls, of any sizes, and for the static pool
    of MemoryLeaks.c after any run of [pool_alloc] and [pool_reset] calls
    from program start. *)
Theorem used_stays_within_capacity :
  (forall sizes pool,
      0 <= Pool.used pool <= Pool.capacity pool ->
      let pool' := snd (Pool.pool_alloc_all pool sizes) in
      0 <= Pool.used pool' <= Pool.capacity pool' /\
      Pool.capacity pool' = Pool.capacity pool /\
      Pool.memory pool' = Pool.memory pool)
  /\
  (forall memory_pool ops,
      0 <= MemoryLeaks.run memory_pool ops <= MemoryLeaks.POOL_SIZE).
Proof.
  split.
  - induction sizes as [| s rest IH]; intros pool Hu; simpl.
    + repeat split; lia.
    + pose proof (FixedFacts.pool_alloc_keeps_bounds pool s Hu) as (H1 & H2 & H3).
      destruct (Pool.pool_alloc pool s) as [p pool1]. simpl in H1, H2, H3.
      specialize (IH pool1 H1).
      destruct (Pool.pool_alloc_all pool1 rest) as [ps pool2]. simpl in *.
      destruct IH as (I1 & I2 & I3). repeat split; congruence || lia.
  - intros mp ops. unfold MemoryLeaks.run.
    assert (Hgen : forall idx,
               0 <= idx <= MemoryLeaks.POOL_SIZE ->
               0 <= fold_left (MemoryLeaks.step mp) ops idx <= MemoryLeaks.POOL_SIZE).
    { induction ops as [| op rest IH]; intros idx Hidx; simpl; [exact Hidx|].
      apply IH. destruct op as [size |]; simpl.
      - unfold MemoryLeaks.pool_alloc. FixedFacts.case_gtb; simpl; [exact Hidx|].
        pose proof (MachineFacts.size_add_bounds idx size). lia.
      - unfold MemoryLeaks.pool_reset, MemoryLeaks.POOL_SIZE. lia. }
    apply Hgen. unfold MemoryLeaks.pool_index_init, MemoryLeaks.POOL_SIZE. lia.
Qed.

Lemma used_stays_within_capacity_witness :
  let pool := {| Pool.memory := 4128; Pool.used := 8; Pool.capacity := 16 |} in
  let pool' := snd (Pool.pool_alloc_all pool [SIZE_MAX - 3; 12; 1]) in
  0 <= Pool.used pool <= Pool.capacity pool /\
  0 <= Pool.used pool' <= Pool.capacity pool' /\
  Pool.capacity pool' = 16 /\ Pool.memory pool' = 4128.
Proof.
  intros pool pool'.
  assert (Hu : 0 <= Pool.used pool <= Pool.capacity pool) by (simpl; lia).
  split; [exact Hu |].
  exact (proj1 used_stays_within_capacity [SIZE_MAX - 3; 12; 1] pool Hu).
Defined.

(** X2.  In the chained pool the same holds as long as no request is
    larger than a block: if every block of the chain has [used] within
    [POOL_BLOCK_SIZE] and [0 <= size <= POOL_BLOCK_SIZE], then after
    [pool_alloc] every block of the chain still has, whether the request
    went to the current block, to a new one, or failed. *)
Theorem chained_used_stays_within_block :
  forall (heap : Type) (SA : SystemAllocator heap)
         (pool : option Chain.MemoryPool) (size : Z) (h : heap),
    Chain.chain_ok pool ->
    0 <= size <= Chain.POOL_BLOCK_SIZE ->
    Chain.chain_ok (snd (fst (Chain.pool_alloc pool size h))).
Proof.
  intros heap SA pool size h Hok Hsize.
  assert (Hmax : Chain.POOL_BLOCK_SIZE <= SIZE_MAX) by (vm_compute; discriminate).
  assert (Hnew : forall h0,
             Chain.chain_ok
               (snd (fst (match Chain.create_pool h0 with
                          | (None, h') => ((NULL, pool), h')
                          | (Some np, h') =>
                              (Chain.take {| Chain.memory := Chain.memory np;
                                             Chain.used := Chain.used np;
                                             Chain.next := pool |} size, h')
                          end)))).
  { intros h0. destruct (Chain.create_pool h0) as [[np |] h'] eqn:Ec; simpl.
    - destruct (ChainedFacts.create_pool_block h0 np h' Ec) as (Hu & _ & _).
      rewrite Hu. unfold size_add. simpl.
      rewrite MachineFacts.wrap_id by lia.
      split; [lia |]. destruct pool; exact Hok.
    - exact Hok. }
  destruct pool as [cur |].
  - destruct (Z.le_gt_cases (size_add (Chain.used cur) size) Chain.POOL_BLOCK_SIZE)
      as [Hle | Hgt].
    + rewrite ChainedFacts.pool_alloc_current by exact Hle. simpl.
      pose proof (MachineFacts.size_add_bounds (Chain.used cur) size).
      destruct cur as [m u n]. simpl in *. split; [lia | tauto].
    + rewrite ChainedFacts.pool_alloc_exhausted.
      * apply Hnew.
      * right. exists cur. split; [reflexivity | lia].
  - rewrite ChainedFacts.pool_alloc_exhausted by (left; reflexivity).
    apply Hnew.
Qed.

Lemma chained_used_stays_within_block_witness :
  let pool := Some {| Chain.memory := 4128; Chain.used := 1000; Chain.next := None |} in
  let h1 := snd (Chain.create_pool Scenarios.roomy) in
  Chain.chain_ok pool /\ 0 <= 100 <= Chain.POOL_BLOCK_SIZE /\
  Chain.chain_ok (snd (fst (Chain.pool_alloc pool 100 h1))).
Proof.
  intros pool h1.
  assert (Hok : Chain.chain_ok pool) by (vm_compute; intuition discriminate).
  assert (Hs : 0 <= 100 <= Chain.POOL_BLOCK_SIZE)
    by (unfold Chain.POOL_BLOCK_SIZE; lia).
  split; [exact Hok | split; [exact Hs |]].
  exact (chained_used_stays_within_block sys_heap sys_allocator pool 100 h1 Hok Hs).
Defined.

(* ===================================================================== *)
(** * Beyond the pools: reference counting, the end of an arena, the chain *)
(* ===================================================================== *)

Module CIntFacts.
Import CInt.

Lemma int_wrap_id : forall x, INT_MIN <= x <= INT_MAX -> int_wrap x = x.
Proof.
  intros x Hx. unfold int_wrap, INT_MIN, INT_MAX in *.
  rewrite Z.mod_small by lia. lia.
Qed.

Lemma int_add_exact :
  forall a b, INT_MIN <= a + b <= INT_MAX -> int_add a b = a + b.
Proof. intros a b H. unfold int_add. now apply int_wrap_id. Qed.

Lemma size_mul_exact :
  forall a b, 0 <= a * b <= SIZE_MAX -> size_mul a b = a * b.
Proof. intros a b H. unfold size_mul. now apply MachineFacts.wrap_id. Qed.

End CIntFacts.

Module RefCountingFacts.
Import RefCounting CInt CIntFacts.

Section WithHeap.
Context {heap : Type} {SA : SystemAllocator heap} {SH : SystemHeap heap}.

(** On a [NULL] pointer every call does nothing. *)
Lemma run_ops_null : forall ops h, run_ops ops None h = (None, h).
Proof.
  induction ops as [| op rest IH]; intros h; simpl; [reflexivity|].
  destruct op; unfold bind, ret; simpl; apply IH.
Qed.

Lemma run_ops_app :
  forall ops1 ops2 obj h,
    run_ops (ops1 ++ ops2) obj h =
    let (obj', h') := run_ops ops1 obj h in run_ops ops2 obj' h'.
Proof.
  induction ops1 as [| op rest IH]; intros ops2 obj h; simpl.
  - reflexivity.
  - unfold bind. destruct (apply_op obj op h) as [obj1 h1]. apply IH.
Qed.

(** While references remain, the count follows the calls and the heap is
    not touched. *)
Lemma run_ops_in_use :
  forall ops p v c h,
    1 <= c <= INT_MAX ->
    in_use c ops ->
    run_ops ops (Some (p, {| value := v; ref_count := c |})) h
    = (Some (p, {| value := v; ref_count := outstanding c ops |}), h)
    /\ 1 <= outstanding c ops <= INT_MAX.
Proof.
  induction ops as [| op rest IH]; intros p v c h Hc Huse; simpl.
  - split; [reflexivity | exact Hc].
  - assert (Hmin : INT_MIN <= 0) by (unfold INT_MIN; lia).
    destruct op; simpl in Huse; destruct Huse as [Hb Hrest];
      unfold bind, ret; simpl.
    + rewrite int_add_exact by lia. apply IH; [lia | exact Hrest].
    + rewrite int_add_exact by lia.
      replace (c + -1) with (c - 1) by lia.
      destruct (Z.eqb_spec (c - 1) 0) as [E | _]; [lia|].
      apply IH; [lia | exact Hrest].
Qed.

Lemma create_ref_counted_some :
  forall v h p o h1,
    create_ref_counted v h = (Some (p, o), h1) ->
    o = {| value := v; ref_count := 1 |} /\ p <> NULL.
Proof.
  intros v h p o h1. unfold create_ref_counted, bind, ret.
  destruct (malloc sizeof_RefCounted h) as [q h'].
  destruct (Z.eqb_spec q NULL) as [E | N]; [discriminate|].
  intros E; inversion E; subst. split; [reflexivity | exact N].
Qed.

End WithHeap.

End RefCountingFacts.

Module ArenaFacts.
Import StackVHeap ArenaLifecycle.

Lemma arena_alloc_as_pool :
  forall arena sz,
    arena_alloc arena sz =
    let r := Pool.pool_alloc (pool_of_arena arena) sz in
    (fst r, {| start := Pool.memory (snd r);
               size := Pool.capacity (snd r);
               used := Pool.used (snd r) |}).
Proof.
  intros [st sz0 us] sz. unfold arena_alloc, Pool.pool_alloc, pool_of_arena. simpl.
  destruct (size_add us sz >? sz0); reflexivity.
Qed.

Lemma static_pool_alloc_as_pool :
  forall memory_pool pool_index size,
    StackVHeap.pool_alloc memory_pool pool_index size =
    let r := Pool.pool_alloc (pool_of_static memory_pool pool_index) size in
    (fst r, Pool.used (snd r)).
Proof.
  intros mp idx size. unfold StackVHeap.pool_alloc, Pool.pool_alloc, pool_of_static.
  simpl. destruct (size_add idx size >? POOL_SIZE); reflexivity.
Qed.

Lemma arena_alloc_all_as_pool :
  forall sizes arena,
    fst (arena_alloc_all arena sizes)
    = fst (Pool.pool_alloc_all (pool_of_arena arena) sizes).
Proof.
  induction sizes as [| sz rest IH]; intros arena; simpl; [reflexivity|].
  rewrite arena_alloc_as_pool. cbv zeta.
  destruct (Pool.pool_alloc (pool_of_arena arena) sz) as [p pool'] eqn:E.
  cbn [fst snd].
  specialize (IH {| start := Pool.memory pool';
                    size := Pool.capacity pool';
                    used := Pool.used pool' |}).
  assert (Hsame : pool_of_arena {| start := Pool.memory pool';
                                   size := Pool.capacity pool';
                                   used := Pool.used pool' |} = pool').
  { destruct pool'; reflexivity. }
  rewrite Hsame in IH.
  destruct (arena_alloc_all _ rest) as [ps a2].
  destruct (Pool.pool_alloc_all pool' rest) as [qs p2].
  simpl in *. now rewrite IH.
Qed.

End ArenaFacts.

Module ChainShapeFacts.
Import DynamicMemoryAllocation.Chained ChainShape.

Section WithAllocator.
Context {heap : Type} {SA : SystemAllocator heap}.

(** One call: the chain it leaves ends with the chain it found, with at
    most one block in front. *)
Lemma pool_alloc_extends_chain :
  forall pool size h,
    exists front,
      chain_addresses (snd (fst (pool_alloc pool size h)))
      = front ++ chain_addresses pool
      /\ (length front <= 1)%nat.
Proof.
  intros pool size h.
  assert (Hgrow : exists front,
             chain_addresses
               (snd (fst (match create_pool h with
                          | (None, h') => ((NULL, pool), h')
                          | (Some np, h') =>
                              (take {| memory := memory np;
                                       used := used np;
                                       next := pool |} size, h')
                          end)))
             = front ++ chain_addresses pool /\ (length front <= 1)%nat).
  { destruct (create_pool h) as [[np |] h']; simpl.
    - exists [memory np]. split; [| simpl; lia].
      destruct pool; reflexivity.
    - exists []. split; [reflexivity | simpl; lia]. }
  destruct pool as [cur |].
  - destruct (Z.le_gt_cases (size_add (used cur) size) POOL_BLOCK_SIZE)
      as [Hle | Hgt].
    + rewrite ChainedFacts.pool_alloc_current by exact Hle.
      exists []. split; [| simpl; lia].
      destruct cur as [m u n]. reflexivity.
    + rewrite ChainedFacts.pool_alloc_exhausted; [exact Hgrow|].
      right. exists cur. split; [reflexivity | lia].
  - rewrite ChainedFacts.pool_alloc_exhausted by (left; reflexivity).
    exact Hgrow.
Qed.

End WithAllocator.

End ChainShapeFacts.

Import SysHeapMore.

(* --------------------------------------------------------------------- *)
(** ** Reference counting *)
(* --------------------------------------------------------------------- *)

(** X3.  From a successful [create_ref_counted], along any run of
    [increase_ref] and [decrease_ref] calls that never gives up the last
    reference (and never counts past [INT_MAX]), the pointer stays the
    same, [value] is unchanged, [ref_count] is one plus the increases
    minus the decreases, and [free] is never called: the heap is as
    [create_ref_counted] left it. *)
Theorem ref_count_follows_the_holders :
  forall (heap : Type) (SA : SystemAllocator heap) (SH : SystemHeap heap)
         (v : Z) (h h1 : heap) (p : Z) (o : RefCounting.RefCounted)
         (ops : list RefCounting.ref_op),
    RefCounting.create_ref_counted v h = (Some (p, o), h1) ->
    RefCounting.in_use 1 ops ->
    RefCounting.run_ops ops (Some (p, o)) h1
    = (Some (p, {| RefCounting.value := v;
                   RefCounting.ref_count := RefCounting.outstanding 1 ops |}),
       h1).
Proof.
  intros heap SA SH v h h1 p o ops Hc Huse.
  destruct (RefCountingFacts.create_ref_counted_some v h p o h1 Hc) as [-> _].
  apply RefCountingFacts.run_ops_in_use; [| exact Huse].
  unfold CInt.INT_MAX. lia.
Qed.

Lemma ref_count_follows_the_holders_witness :
  let ops := [RefCounting.Increase; RefCounting.Increase;
              RefCounting.Decrease; RefCounting.Decrease] in
  let o := {| RefCounting.value := 42; RefCounting.ref_count := 1 |} in
  RefCounting.create_ref_counted 42 Scenarios.roomy
  = (Some (4096, o), snd (RefCounting.create_ref_counted 42 Scenarios.roomy)) /\
  RefCounting.in_use 1 ops /\
  RefCounting.run_ops ops (Some (4096, o))
    (snd (RefCounting.create_ref_counted 42 Scenarios.roomy))
  = (Some (4096, o), snd (RefCounting.create_ref_counted 42 Scenarios.roomy)).
Proof.
  intros ops o.
  assert (Hc : RefCounting.create_ref_counted 42 Scenarios.roomy
               = (Some (4096, o),
                  snd (RefCounting.create_ref_counted 42 Scenarios.roomy)))
    by reflexivity.
  assert (Huse : RefCounting.in_use 1 ops).
  { unfold ops. simpl. unfold CInt.INT_MAX. lia. }
  split; [exact Hc | split; [exact Huse |]].
  exact (ref_count_follows_the_holders
           SysHeap.sys_heap SysHeap.sys_allocator SysHeapMore.sys_heap_more
           42 Scenarios.roomy _ 4096 o ops Hc Huse).
Defined.

(** X4.  The call of [decrease_ref] that gives up the last reference
    frees the object and sets the pointer to [NULL]; whatever calls
    follow on that pointer do nothing.  So over the whole run [free] is
    called exactly once, on the object's address. *)
Theorem last_release_frees_exactly_once :
  forall (heap : Type) (SA : SystemAllocator heap) (SH : SystemHeap heap)
         (v : Z) (h h1 : heap) (p : Z) (o : RefCounting.RefCounted)
         (before after : list RefCounting.ref_op),
    RefCounting.create_ref_counted v h = (Some (p, o), h1) ->
    RefCounting.in_use 1 before ->
    RefCounting.outstanding 1 before = 1 ->
    RefCounting.run_ops (before ++ RefCounting.Decrease :: after) (Some (p, o)) h1
    = (None, free p h1).
Proof.
  intros heap SA SH v h h1 p o before after Hc Huse Hone.
  destruct (RefCountingFacts.create_ref_counted_some v h p o h1 Hc) as [-> _].
  rewrite RefCountingFacts.run_ops_app.
  destruct (RefCountingFacts.run_ops_in_use before p v 1 h1) as [Hrun _];
    [unfold CInt.INT_MAX; lia | exact Huse |].
  rewrite Hrun, Hone. simpl. unfold bind. simpl.
  apply RefCountingFacts.run_ops_null.
Qed.

Lemma last_release_frees_exactly_once_witness :
  let before := [RefCounting.Increase; RefCounting.Decrease] in
  let after := [RefCounting.Decrease; RefCounting.Increase] in
  let o := {| RefCounting.value := 42; RefCounting.ref_count := 1 |} in
  let h1 := snd (RefCounting.create_ref_counted 42 Scenarios.roomy) in
  RefCounting.create_ref_counted 42 Scenarios.roomy = (Some (4096, o), h1) /\
  RefCounting.in_use 1 before /\
  RefCounting.outstanding 1 before = 1 /\
  RefCounting.run_ops (before ++ RefCounting.Decrease :: after) (Some (4096, o)) h1
  = (None, free 4096 h1).
Proof.
  intros before after o h1.
  assert (Hc : RefCounting.create_ref_counted 42 Scenarios.roomy
               = (Some (4096, o), h1)) by reflexivity.
  assert (Huse : RefCounting.in_use 1 before).
  { unfold before. simpl. unfold CInt.INT_MAX. lia. }
  assert (Hone : RefCounting.outstanding 1 before = 1) by reflexivity.
  split; [exact Hc | split; [exact Huse | split; [exact Hone |]]].
  exact (last_release_frees_exactly_once
           SysHeap.sys_heap SysHeap.sys_allocator SysHeapMore.sys_heap_more
           42 Scenarios.roomy h1 4096 o before after Hc Huse Hone).
Defined.

(* --------------------------------------------------------------------- *)
(** ** The arena and the static pool of StackVHeap.c *)
(* --------------------------------------------------------------------- *)

Module LayoutFacts.

(** A back-to-back layout that fits in a block is well placed in it. *)
Lemma layout_well_placed :
  forall base first len sizes,
    0 < base -> 0 <= first ->
    Forall (fun s => 0 <= s) sizes ->
    first + total sizes <= len ->
    well_placed base len sizes (layout (base + first) sizes).
Proof.
  intros base first len sizes Hb Hst Hs Hfit.
  unfold well_placed. split; [apply RangeFacts.layout_sizes|]. split.
  - pose proof (RangeFacts.layout_within sizes (base + first) Hs) as Hw.
    eapply Forall_impl; [| exact Hw].
    intros r [H1 H2]. unfold within, NULL. lia.
  - now apply RangeFacts.layout_pairwise_disjoint.
Qed.

End LayoutFacts.

(** X5.  After [destroy_arena] the arena gives nothing away: every
    [arena_alloc], of any size a [size_t] can hold, returns [NULL] and
    leaves the arena as it is; and a second [destroy_arena] changes
    neither the arena nor the heap, since it frees [NULL]. *)
Theorem destroyed_arena_rejects_every_request :
  forall (heap : Type) (SA : SystemAllocator heap) (SH : SystemHeap heap)
         (arena : StackVHeap.MemoryArena) (h : heap) (sz : Z),
    0 <= sz <= SIZE_MAX ->
    let gone := fst (ArenaLifecycle.destroy_arena arena h) in
    let h' := snd (ArenaLifecycle.destroy_arena arena h) in
    StackVHeap.arena_alloc gone sz = (NULL, gone) /\
    ArenaLifecycle.destroy_arena gone h' = (gone, h').
Proof.
  intros heap SA SH arena h sz Hsz gone h'. subst gone h'.
  unfold ArenaLifecycle.destroy_arena. cbn [fst snd StackVHeap.start].
  split.
  - destruct (Z.eq_dec sz 0) as [-> | Hnz].
    + reflexivity.
    + apply StackVHeapFacts.arena_alloc_rejects. cbn [StackVHeap.used StackVHeap.size].
      unfold size_add. rewrite Z.add_0_l, MachineFacts.wrap_id by exact Hsz. lia.
  - now rewrite free_null.
Qed.

Lemma destroyed_arena_rejects_every_request_witness :
  let arena := fst (StackVHeap.create_arena 1024 Scenarios.roomy) in
  let h := snd (StackVHeap.create_arena 1024 Scenarios.roomy) in
  let gone := fst (ArenaLifecycle.destroy_arena arena h) in
  0 <= 4 <= SIZE_MAX /\
  StackVHeap.arena_alloc gone 4 = (NULL, gone) /\
  ArenaLifecycle.destroy_arena gone (snd (ArenaLifecycle.destroy_arena arena h))
  = (gone, snd (ArenaLifecycle.destroy_arena arena h)).
Proof.
  intros arena h gone.
  assert (Hsz : 0 <= 4 <= SIZE_MAX) by ok_by_lia.
  split; [exact Hsz |].
  exact (destroyed_arena_rejects_every_request
           SysHeap.sys_heap SysHeap.sys_allocator SysHeapMore.sys_heap_more
           arena h 4 Hsz).
Defined.

(** X6.  The three copies of the bump allocator agree.  [arena_alloc] on
    an arena, and the static [pool_alloc] of StackVHeap.c on its index,
    return the pointer and leave the counter that [pool_alloc] of
    DynamicMemoryAllocation.c returns and leaves on the pool with the same
    block address, [used] and capacity; and the static [pool_alloc] of
    MemoryLeaks.c is the one of StackVHeap.c. *)
Theorem bump_allocators_agree :
  (forall arena sz,
      let r := Pool.pool_alloc (ArenaLifecycle.pool_of_arena arena) sz in
      StackVHeap.arena_alloc arena sz
      = (fst r, {| StackVHeap.start := Pool.memory (snd r);
                   StackVHeap.size := Pool.capacity (snd r);
                   StackVHeap.used := Pool.used (snd r) |}))
  /\
  (forall memory_pool pool_index size,
      let r := Pool.pool_alloc
                 (ArenaLifecycle.pool_of_static memory_pool pool_index) size in
      StackVHeap.pool_alloc memory_pool pool_index size
      = (fst r, Pool.used (snd r)))
  /\
  (forall memory_pool pool_index size,
      MemoryLeaks.pool_alloc memory_pool pool_index size
      = StackVHeap.pool_alloc memory_pool pool_index size).
Proof.
  split; [| split].
  - exact ArenaFacts.arena_alloc_as_pool.
  - exact ArenaFacts.static_pool_alloc_as_pool.
  - reflexivity.
Qed.

(** X7.  Non-aliasing for the arena of StackVHeap.c.  On an arena that
    [create_arena] made with a block, a run of [arena_alloc] calls whose
    sizes together fit in the arena succeeds at every call, and the
    ranges handed out lie inside the block and are pairwise disjoint. *)
Theorem arena_ranges_pairwise_disjoint :
  forall (heap : Type) (SA : SystemAllocator heap)
         (n : Z) (h : heap) (sizes : list Z),
    let arena := fst (StackVHeap.create_arena n h) in
    0 < StackVHeap.start arena ->
    0 <= n <= SIZE_MAX ->
    Forall (fun s => 0 <= s) sizes ->
    total sizes <= n ->
    well_placed (StackVHeap.start arena) n sizes
                (fst (ArenaLifecycle.arena_alloc_all arena sizes)).
Proof.
  intros heap SA n h sizes arena. subst arena.
  unfold StackVHeap.create_arena, bind, ret.
  destruct (malloc n h) as [m h1]. cbn [fst StackVHeap.start].
  intros Hst Hn Hs Hfit.
  rewrite ArenaFacts.arena_alloc_all_as_pool.
  unfold ArenaLifecycle.pool_of_arena.
  cbn [StackVHeap.start StackVHeap.size StackVHeap.used].
  rewrite FixedFacts.pool_alloc_all_layout.
  - cbn [Pool.memory Pool.used].
    apply LayoutFacts.layout_well_placed; auto; lia.
  - unfold Pool.pool_ok. cbn [Pool.memory Pool.used Pool.capacity]. lia.
  - exact Hs.
  - cbn [Pool.used Pool.capacity]. lia.
Qed.

Lemma arena_ranges_pairwise_disjoint_witness :
  let arena := fst (StackVHeap.create_arena 1024 Scenarios.roomy) in
  let sizes := [4; 100; 920] in
  0 < StackVHeap.start arena /\
  0 <= 1024 <= SIZE_MAX /\
  Forall (fun s => 0 <= s) sizes /\
  total sizes <= 1024 /\
  well_placed (StackVHeap.start arena) 1024 sizes
              (fst (ArenaLifecycle.arena_alloc_all arena sizes)).
Proof.
  intros arena sizes.
  assert (Hst : 0 < StackVHeap.start arena) by reflexivity.
  assert (Hn : 0 <= 1024 <= SIZE_MAX) by ok_by_lia.
  assert (Hs : Forall (fun s => 0 <= s) sizes) by (repeat constructor; lia).
  assert (Hfit : total sizes <= 1024) by (unfold sizes; simpl; lia).
  split; [exact Hst | split; [exact Hn | split; [exact Hs | split; [exact Hfit |]]]].
  exact (arena_ranges_pairwise_disjoint
           SysHeap.sys_heap SysHeap.sys_allocator 1024 Scenarios.roomy sizes
           Hst Hn Hs Hfit).
Defined.

(* --------------------------------------------------------------------- *)
(** ** The chain of the chained pool *)
(* --------------------------------------------------------------------- *)

(** X8.  The chained [pool_alloc] never loses a block.  After any run of
    calls, of any sizes and whatever the allocator answers, the chain
    ends with the chain the run started from, block for block and in the
    same order, with at most one new block in front per call: what
    [destroy_pool] walks includes every block there ever was. *)
Theorem chained_pool_never_loses_a_block :
  forall (heap : Type) (SA : SystemAllocator heap)
         (sizes : list Z) (pool : option Chain.MemoryPool) (h : heap),
    exists front,
      ChainShape.chain_addresses
        (snd (fst (ChainShape.pool_alloc_all pool sizes h)))
      = front ++ ChainShape.chain_addresses pool
      /\ (length front <= length sizes)%nat.
Proof.
  intros heap SA sizes.
  induction sizes as [| size rest IH]; intros pool h; simpl.
  - exists []. split; [reflexivity | simpl; lia].
  - unfold bind, ret.
    destruct (ChainShapeFacts.pool_alloc_extends_chain pool size h)
      as (f1 & E1 & L1).
    destruct (Chain.pool_alloc pool size h) as [[p pool1] h1].
    cbn [fst snd] in *.
    destruct (IH pool1 h1) as (f2 & E2 & L2).
    destruct (ChainShape.pool_alloc_all pool1 rest h1) as [[ps pool2] h2].
    cbn [fst snd] in *.
    exists (f2 ++ f1). split.
    + rewrite E2, E1. now rewrite app_assoc.
    + rewrite length_app. simpl. lia.
Qed.

(* --------------------------------------------------------------------- *)
(** ** The resource manager of MemoryLeaks.c *)
(* --------------------------------------------------------------------- *)

Module CMemoryFacts.
Import CMemory.

Lemma write_length :
  forall (A : Type) (a : array A) i v, length (write a i v) = length a.
Proof.
  intros A. induction a as [| x rest IH]; intros i v; simpl; [reflexivity|].
  destruct i; simpl; [reflexivity | now rewrite IH].
Qed.

(** Writing slot [i] makes the first [i + 1] slots the first [i] old
    ones followed by the value written. *)
Lemma write_firstn :
  forall (A : Type) (a : array A) i v,
    (i < length a)%nat ->
    firstn (S i) (write a i v) = firstn i a ++ [Some v].
Proof.
  intros A. induction a as [| x rest IH]; intros i v Hi; simpl in Hi; [lia|].
  destruct i as [| i].
  - reflexivity.
  - change (x :: firstn (S i) (write rest i v) = x :: (firstn i rest ++ [Some v])).
    f_equal. apply IH. lia.
Qed.

Lemma resized_length :
  forall (A : Type) bytes (a : array A),
    (length a <= slots_in bytes)%nat ->
    length (resized bytes a) = slots_in bytes.
Proof.
  intros A bytes a Hle. unfold resized.
  rewrite length_app, length_firstn, repeat_length. lia.
Qed.

Lemma resized_firstn :
  forall (A : Type) bytes (a : array A) k,
    (k <= length a)%nat -> (length a <= slots_in bytes)%nat ->
    firstn k (resized bytes a) = firstn k a.
Proof.
  intros A bytes a k Hk Hle. unfold resized.
  rewrite firstn_all2 with (l := a) by exact Hle.
  rewrite firstn_app.
  replace (k - length a)%nat with 0%nat by lia.
  now rewrite firstn_O, app_nil_r.
Qed.

End CMemoryFacts.

Module ResourceManagementFacts.
Import CMemory CMemoryFacts ResourceManagement.

(** Storing at [count] in a manager that holds [rs] and has a free slot. *)
Lemma put_appends :
  forall m rs r,
    resources (rm m) <> NULL ->
    0 < capacity (rm m) ->
    count (rm m) = Z.of_nat (length rs) ->
    Z.of_nat (length (slots m)) = capacity (rm m) ->
    held m = map Some rs ->
    count (rm m) < capacity (rm m) ->
    capacity (rm m) <= SIZE_MAX ->
    exists m',
      put m r = Done m' /\
      holds m' (rs ++ [r]) /\
      self m' = self m /\
      resources (rm m') = resources (rm m) /\
      capacity (rm m') = capacity (rm m).
Proof.
  intros m rs r Hres Hcap Hcount Hlen Hheld Hroom Hmax.
  unfold put, store.
  destruct (Z.eqb_spec (resources (rm m)) NULL) as [E | _]; [contradiction|].
  destruct (Z.leb_spec 0 (count (rm m))) as [_ | Hneg]; [| lia].
  destruct (Z.ltb_spec (count (rm m)) (Z.of_nat (length (slots m)))) as [_ | Hge];
    [| lia].
  cbn [andb]. eexists. split; [reflexivity|].
  assert (Hnext : size_add (count (rm m)) 1 = count (rm m) + 1).
  { apply MachineFacts.size_add_exact; lia. }
  unfold holds, held. cbn [self rm slots resources count capacity].
  rewrite Hnext, write_length.
  repeat split; try assumption.
  - rewrite length_app. simpl. lia.
  - replace (Z.to_nat (count (rm m) + 1)) with (S (Z.to_nat (count (rm m)))) by lia.
    rewrite write_firstn by lia.
    unfold held in Hheld. rewrite Hheld, map_app. reflexivity.
Qed.

End ResourceManagementFacts.

(** X9.  [create_resource_manager] gives a whole manager or nothing.
    When it returns a manager, the struct and the array are both
    allocated, [count] is 0 and [capacity] is the requested one (and for
    a capacity above 0 whose byte size is representable the manager is
    consistent and holds nothing).  When it returns [NULL], either the
    struct could not be allocated, or the array could not and the struct
    was given back with [free]. *)
Theorem create_resource_manager_all_or_nothing :
  forall (heap : Type) (SA : SystemAllocator heap) (SH : SystemHeap heap)
         (n : Z) (h : heap),
    let p := fst (malloc sizeof_three_words h) in
    let h1 := snd (malloc sizeof_three_words h) in
    let bytes := CInt.size_mul n CInt.sizeof_pointer in
    match ResourceManagement.create_resource_manager n h with
    | (Some m, h') =>
        ResourceManagement.self m = p /\ p <> NULL /\
        ResourceManagement.resources (ResourceManagement.rm m)
        = fst (malloc bytes h1) /\
        ResourceManagement.resources (ResourceManagement.rm m) <> NULL /\
        ResourceManagement.count (ResourceManagement.rm m) = 0 /\
        ResourceManagement.capacity (ResourceManagement.rm m) = n /\
        h' = snd (malloc bytes h1) /\
        (0 < n /\ n * 8 <= SIZE_MAX -> ResourceManagement.holds m [])
    | (None, h') =>
        (p = NULL /\ h' = h1) \/
        (p <> NULL /\ fst (malloc bytes h1) = NULL /\
         h' = free p (snd (malloc bytes h1)))
    end.
Proof.
  intros heap SA SH n h p h1 bytes. subst p h1 bytes.
  unfold ResourceManagement.create_resource_manager, bind, ret.
  destruct (malloc sizeof_three_words h) as [p h1]. cbn [fst snd].
  destruct (Z.eqb_spec p NULL) as [Ep | Np].
  - left. split; [exact Ep | reflexivity].
  - destruct (malloc (CInt.size_mul n CInt.sizeof_pointer) h1) as [res h2] eqn:Em.
    cbn [fst snd].
    destruct (Z.eqb_spec res NULL) as [Er | Nr].
    + right. repeat split; assumption.
    + cbn [ResourceManagement.self ResourceManagement.rm
           ResourceManagement.resources ResourceManagement.count
           ResourceManagement.capacity].
      split; [reflexivity |]. split; [exact Np |]. split; [reflexivity |].
      split; [exact Nr |]. split; [reflexivity |]. split; [reflexivity |].
      split; [reflexivity |].
      intros [Hn Hb].
      unfold ResourceManagement.holds, ResourceManagement.held.
      cbn [ResourceManagement.self ResourceManagement.rm
           ResourceManagement.resources ResourceManagement.count
           ResourceManagement.capacity ResourceManagement.slots].
      split; [exact Nr |]. split; [exact Hn |]. split; [reflexivity |].
      split; [| reflexivity].
      unfold CMemory.fresh_array, CMemory.slots_in.
      rewrite repeat_length.
      rewrite CIntFacts.size_mul_exact by (unfold CInt.sizeof_pointer; lia).
      unfold CInt.sizeof_pointer. rewrite Z.div_mul by lia. lia.
Qed.

Lemma create_resource_manager_all_or_nothing_witness :
  let m := {| ResourceManagement.self := 4096;
              ResourceManagement.rm :=
                {| ResourceManagement.resources := 4128;
                   ResourceManagement.count := 0;
                   ResourceManagement.capacity := 2 |};
              ResourceManagement.slots := [None; None] |} in
  let r := ResourceManagement.create_resource_manager 2 Scenarios.roomy in
  r = (Some m, snd r) /\
  (0 < 2 /\ 2 * 8 <= SIZE_MAX) /\
  ResourceManagement.holds m [].
Proof.
  intros m r.
  assert (Hr : r = (Some m, snd r)) by reflexivity.
  assert (Hn : 0 < 2 /\ 2 * 8 <= SIZE_MAX) by ok_by_lia.
  split; [exact Hr | split; [exact Hn |]].
  pose proof (create_resource_manager_all_or_nothing
                SysHeap.sys_heap SysHeap.sys_allocator SysHeapMore.sys_heap_more
                2 Scenarios.roomy) as Hall.
  cbv zeta in Hall. fold r in Hall. rewrite Hr in Hall.
  destruct Hall as (_ & _ & _ & _ & _ & _ & _ & Hholds).
  exact (Hholds Hn).
Defined.

(** X10.  [add_resource] on a consistent manager holding [rs], whose
    doubled capacity is representable in bytes, never goes out of the
    array and has one of two results.  Either the manager now holds [rs]
    followed by the new resource, is consistent again, and its capacity
    is as before or, if the array was full, doubled.  Or the array was
    full, [realloc] returned [NULL], and the manager is exactly as before:
    the resource is not recorded and nothing tells the caller. *)
Theorem add_resource_appends_or_drops :
  forall (heap : Type) (SA : SystemAllocator heap) (SH : SystemHeap heap)
         (m : ResourceManagement.manager) (rs : list Z) (r : Z) (h : heap),
    ResourceManagement.holds m rs ->
    ResourceManagement.capacity (ResourceManagement.rm m) * 16 <= SIZE_MAX ->
    let cap := ResourceManagement.capacity (ResourceManagement.rm m) in
    let full := ResourceManagement.count (ResourceManagement.rm m) = cap in
    let answer :=
      fst (realloc (ResourceManagement.resources (ResourceManagement.rm m))
                   (16 * cap) h) in
    (exists m',
        fst (ResourceManagement.add_resource m r h) = CMemory.Done m' /\
        ResourceManagement.holds m' (rs ++ [r]) /\
        ResourceManagement.self m' = ResourceManagement.self m /\
        ((~ full /\
          ResourceManagement.capacity (ResourceManagement.rm m') = cap /\
          snd (ResourceManagement.add_resource m r h) = h) \/
         (full /\ answer <> NULL /\
          ResourceManagement.resources (ResourceManagement.rm m') = answer /\
          ResourceManagement.capacity (ResourceManagement.rm m') = 2 * cap)))
    \/
    (full /\ answer = NULL /\
     fst (ResourceManagement.add_resource m r h) = CMemory.Done m).
Proof.
  intros heap SA SH m rs r h (Hres & Hcap & Hcount & Hlen & Hheld) Hbound
         cap full answer.
  subst cap full answer.
  assert (Hle : ResourceManagement.count (ResourceManagement.rm m)
                <= ResourceManagement.capacity (ResourceManagement.rm m)).
  { assert (Hl : length (ResourceManagement.held m) = length rs)
      by (rewrite Hheld; apply length_map).
    unfold ResourceManagement.held in Hl. rewrite length_firstn in Hl. lia. }
  unfold ResourceManagement.add_resource.
  destruct (Z.eqb_spec (ResourceManagement.count (ResourceManagement.rm m))
                       (ResourceManagement.capacity (ResourceManagement.rm m)))
    as [Efull | Nfull].
  - assert (E2 : CInt.size_mul
                   (ResourceManagement.capacity (ResourceManagement.rm m)) 2
                 = 2 * ResourceManagement.capacity (ResourceManagement.rm m)).
    { rewrite CIntFacts.size_mul_exact by lia. lia. }
    assert (E16 : CInt.size_mul
                    (2 * ResourceManagement.capacity (ResourceManagement.rm m))
                    CInt.sizeof_pointer
                  = 16 * ResourceManagement.capacity (ResourceManagement.rm m)).
    { unfold CInt.sizeof_pointer.
      rewrite CIntFacts.size_mul_exact by lia. lia. }
    cbv zeta. rewrite E2, E16. unfold bind, ret.
    destruct (realloc (ResourceManagement.resources (ResourceManagement.rm m))
                      (16 * ResourceManagement.capacity (ResourceManagement.rm m)) h)
      as [q h'] eqn:Er.
    cbn [fst snd].
    destruct (Z.eqb_spec q NULL) as [Eq | Nq].
    + right. repeat split; assumption.
    + left.
      assert (Hslots : CMemory.slots_in
                         (16 * ResourceManagement.capacity (ResourceManagement.rm m))
                       = Z.to_nat
                           (2 * ResourceManagement.capacity (ResourceManagement.rm m))).
      { unfold CMemory.slots_in, CInt.sizeof_pointer. f_equal.
        replace (16 * ResourceManagement.capacity (ResourceManagement.rm m))
          with (2 * ResourceManagement.capacity (ResourceManagement.rm m) * 8) by lia.
        apply Z.div_mul. lia. }
      destruct (ResourceManagementFacts.put_appends
                  {| ResourceManagement.self := ResourceManagement.self m;
                     ResourceManagement.rm :=
                       {| ResourceManagement.resources := q;
                          ResourceManagement.count :=
                            ResourceManagement.count (ResourceManagement.rm m);
                          ResourceManagement.capacity :=
                            2 * ResourceManagement.capacity (ResourceManagement.rm m) |};
                     ResourceManagement.slots :=
                       CMemory.resized
                         (16 * ResourceManagement.capacity (ResourceManagement.rm m))
                         (ResourceManagement.slots m) |}
                  rs r) as (m' & Hput & Hholds & Hself & Hres' & Hcap');
        cbn [ResourceManagement.self ResourceManagement.rm
             ResourceManagement.resources ResourceManagement.count
             ResourceManagement.capacity ResourceManagement.slots];
        try assumption; try lia.
      * rewrite CMemoryFacts.resized_length; rewrite Hslots; lia.
      * unfold ResourceManagement.held.
        cbn [ResourceManagement.rm ResourceManagement.count ResourceManagement.slots].
        rewrite CMemoryFacts.resized_firstn; [exact Hheld | lia | rewrite Hslots; lia].
      * exists m'. split; [exact Hput | split; [exact Hholds | split; [exact Hself |]]].
        right. cbn in Hres', Hcap'. repeat split; assumption.
  - left. unfold ret. cbn [fst snd].
    destruct (ResourceManagementFacts.put_appends m rs r)
      as (m' & Hput & Hholds & Hself & Hres' & Hcap'); try assumption; try lia.
    exists m'. split; [exact Hput | split; [exact Hholds | split; [exact Hself |]]].
    left. repeat split; assumption.
Qed.

Lemma add_resource_appends_or_drops_witness :
  let m := {| ResourceManagement.self := 4096;
              ResourceManagement.rm :=
                {| ResourceManagement.resources := 4128;
                   ResourceManagement.count := 0;
                   ResourceManagement.capacity := 2 |};
              ResourceManagement.slots := [None; None] |} in
  let h := snd (ResourceManagement.create_resource_manager 2 Scenarios.roomy) in
  fst (ResourceManagement.create_resource_manager 2 Scenarios.roomy) = Some m /\
  ResourceManagement.holds m [] /\
  ResourceManagement.capacity (ResourceManagement.rm m) * 16 <= SIZE_MAX /\
  exists m',
    fst (ResourceManagement.add_resource m 5000 h) = CMemory.Done m' /\
    ResourceManagement.holds m' [5000].
Proof.
  intros m h.
  assert (Hm : fst (ResourceManagement.create_resource_manager 2 Scenarios.roomy)
               = Some m) by reflexivity.
  assert (Hholds : ResourceManagement.holds m []).
  { unfold ResourceManagement.holds, ResourceManagement.held, NULL. simpl.
    repeat split; lia. }
  assert (Hbound : ResourceManagement.capacity (ResourceManagement.rm m) * 16
                   <= SIZE_MAX) by ok_by_lia.
  split; [exact Hm | split; [exact Hholds | split; [exact Hbound |]]].
  destruct (add_resource_appends_or_drops
              SysHeap.sys_heap SysHeap.sys_allocator SysHeapMore.sys_heap_more
              m [] 5000 h Hholds Hbound)
    as [(m' & Hdone & Hnow & _) | (Hfull & _)].
  - exists m'. split; [exact Hdone | exact Hnow].
  - simpl in Hfull. discriminate Hfull.
Defined.

Module ResourceRunFacts.
Import CMemory ResourceManagement.

Section WithHeap.
Context {heap : Type} {SA : SystemAllocator heap} {SH : SystemHeap heap}.

(** The loop of [destroy_resource_manager] over the resources held. *)
Lemma free_resources_held :
  forall m rest done h,
    resources (rm m) <> NULL ->
    held m = map Some (done ++ rest) ->
    count (rm m) = Z.of_nat (length (done ++ rest)) ->
    count (rm m) <= SIZE_MAX ->
    free_resources m (Z.of_nat (length done)) (length rest) h
    = (Done tt, fold_left (fun h' p => free p h') rest h).
Proof.
  intros m rest. induction rest as [| r rest IH]; intros done h Hres Hheld Hcount Hmax.
  - reflexivity.
  - simpl. unfold load.
    destruct (Z.eqb_spec (resources (rm m)) NULL) as [E | _]; [contradiction|].
    assert (Hnth : nth_error (slots m) (length done) = Some (Some r)).
    { assert (Hh : nth_error (held m) (length done) = Some (Some r)).
      { rewrite Hheld, nth_error_map, nth_error_app2 by lia.
        now rewrite Nat.sub_diag. }
      unfold held in Hh. rewrite nth_error_firstn in Hh.
      destruct (Nat.ltb_spec (length done) (Z.to_nat (count (rm m))));
        [exact Hh | discriminate]. }
    destruct (Z.ltb_spec (Z.of_nat (length done)) 0) as [Hneg | _]; [lia|].
    rewrite Nat2Z.id, Hnth.
    rewrite length_app in Hcount. simpl in Hcount.
    rewrite MachineFacts.size_add_exact by lia.
    replace (Z.of_nat (length done) + 1) with (Z.of_nat (length (done ++ [r])))
      by (rewrite length_app; simpl; lia).
    apply IH; try assumption.
    + now rewrite <- app_assoc.
    + rewrite <- app_assoc. simpl. rewrite length_app. simpl. lia.
Qed.

End WithHeap.

End ResourceRunFacts.



(** X12.  [destroy_resource_manager] on a consistent manager holding
    [rs] reads no slot outside the held ones and calls [free] on each
    held resource once, in the order they were added, then on the array,
    then on the struct. *)
Theorem destroy_frees_every_held_resource :
  forall (heap : Type) (SA : SystemAllocator heap) (SH : SystemHeap heap)
         (m : ResourceManagement.manager) (rs : list Z) (h : heap),
    ResourceManagement.holds m rs ->
    ResourceManagement.capacity (ResourceManagement.rm m) <= SIZE_MAX ->
    ResourceManagement.destroy_resource_manager m h
    = (CMemory.Done tt,
       free (ResourceManagement.self m)
         (free (ResourceManagement.resources (ResourceManagement.rm m))
            (fold_left (fun h' p => free p h') rs h))).
Proof.
  intros heap SA SH m rs h (Hres & Hcap & Hcount & Hlen & Hheld) Hmax.
  assert (Hle : ResourceManagement.count (ResourceManagement.rm m)
                <= ResourceManagement.capacity (ResourceManagement.rm m)).
  { assert (Hl : length (ResourceManagement.held m) = length rs)
      by (rewrite Hheld; apply length_map).
    unfold ResourceManagement.held in Hl. rewrite length_firstn in Hl. lia. }
  unfold ResourceManagement.destroy_resource_manager, bind.
  rewrite Hcount, Nat2Z.id.
  pose proof (ResourceRunFacts.free_resources_held m rs [] h Hres Hheld Hcount)
    as Hloop.
  simpl in Hloop. rewrite Hloop by lia. reflexivity.
Qed.

Lemma destroy_frees_every_held_resource_witness :
  let m := {| ResourceManagement.self := 4096;
              ResourceManagement.rm :=
                {| ResourceManagement.resources := 4128;
                   ResourceManagement.count := 2;
                   ResourceManagement.capacity := 4 |};
              ResourceManagement.slots := [Some 5000; Some 6000; None; None] |} in
  ResourceManagement.holds m [5000; 6000] /\
  ResourceManagement.capacity (ResourceManagement.rm m) <= SIZE_MAX /\
  forall h : SysHeap.sys_heap,
    ResourceManagement.destroy_resource_manager m h
    = (CMemory.Done tt, free 4096 (free 4128 (free 6000 (free 5000 h)))).
Proof.
  intros m.
  assert (Hholds : ResourceManagement.holds m [5000; 6000]).
  { unfold ResourceManagement.holds, ResourceManagement.held, NULL. simpl.
    repeat split; lia. }
  assert (Hmax : ResourceManagement.capacity (ResourceManagement.rm m) <= SIZE_MAX)
    by ok_by_lia.
  split; [exact Hholds | split; [exact Hmax |]].
  intros h.
  exact (destroy_frees_every_held_resource
           SysHeap.sys_heap SysHeap.sys_allocator SysHeapMore.sys_heap_more
           m [5000; 6000] h Hholds Hmax).
Defined.

(* --------------------------------------------------------------------- *)
(** ** The checked allocation wrappers *)
(* --------------------------------------------------------------------- *)

(** X13.  [safe_malloc] and [safe_calloc] never return [NULL], and
    [safe_realloc] returns [NULL] only for a request of size 0: a call
    returns what the allocator returned when that is not [NULL] (or, for
    [safe_realloc], when the size is 0), and otherwise ends the program
    with status [EXIT_FAILURE] after its message on [stderr]. *)
Theorem safe_wrappers_return_no_null :
  forall (heap : Type) (SA : SystemAllocator heap) (SH : SystemHeap heap)
         (h : heap) (p nmemb size : Z),
    match fst (SafeAlloc.safe_malloc size h) with
    | SafeAlloc.Returned q => q <> NULL /\ q = fst (malloc size h)
    | SafeAlloc.Exited status message =>
        status = CInt.EXIT_FAILURE /\ message = SafeAlloc.allocation_failed /\
        fst (malloc size h) = NULL
    end
    /\
    match fst (SafeAlloc.safe_calloc nmemb size h) with
    | SafeAlloc.Returned q => q <> NULL /\ q = fst (calloc nmemb size h)
    | SafeAlloc.Exited status message =>
        status = CInt.EXIT_FAILURE /\ message = SafeAlloc.allocation_failed /\
        fst (calloc nmemb size h) = NULL
    end
    /\
    match fst (SafeAlloc.safe_realloc p size h) with
    | SafeAlloc.Returned q =>
        (q = NULL -> size = 0) /\ q = fst (realloc p size h)
    | SafeAlloc.Exited status message =>
        status = CInt.EXIT_FAILURE /\ message = SafeAlloc.reallocation_failed /\
        fst (realloc p size h) = NULL /\ size <> 0
    end.
Proof.
  intros heap SA SH h p nmemb size.
  unfold SafeAlloc.safe_malloc, SafeAlloc.safe_calloc, SafeAlloc.safe_realloc,
    bind, ret.
  split; [| split].
  - destruct (malloc size h) as [q h']. cbn [fst].
    destruct (Z.eqb_spec q NULL); cbn [fst]; repeat split; assumption.
  - destruct (calloc nmemb size h) as [q h']. cbn [fst].
    destruct (Z.eqb_spec q NULL); cbn [fst]; repeat split; assumption.
  - destruct (realloc p size h) as [q h']. cbn [fst].
    destruct (Z.eqb_spec q NULL) as [Eq | Nq];
      destruct (Z.eqb_spec size 0) as [Es | Ns]; cbn [fst andb negb];
      repeat split; try assumption; try reflexivity;
      intros; first [assumption | contradiction].
Qed.

(* --------------------------------------------------------------------- *)
(** ** The record database of DynamicMemoryAllocation.c *)
(* --------------------------------------------------------------------- *)

Module RecordDatabaseFacts.
Import CMemory CMemoryFacts RecordDatabase.

Section WithHeap.
Context {heap : Type} {SA : SystemAllocator heap} {SH : SystemHeap heap}.

Lemma strdup_copy :
  forall s h,
    fst (strdup s h) = None \/
    exists q, q <> NULL /\ fst (strdup s h) = Some (q, s).
Proof.
  intros s h. unfold strdup, bind, ret.
  destruct (malloc (Z.of_nat (String.length s) + 1) h) as [q h'].
  destruct (Z.eqb_spec q NULL) as [E | N]; [left; reflexivity|].
  right. exists q. split; [exact N | reflexivity].
Qed.

(** No record to fill: the first store through the pointer faults. *)
Lemma insert_without_record :
  forall d i n a h,
    fst (malloc sizeof_Record h) = NULL ->
    fst (insert d i n a h) = Fault NullDereference.
Proof.
  intros d i n a h Hnull. unfold insert, bind, ret.
  destruct (malloc sizeof_Record h) as [p h1]. cbn [fst] in Hnull. subst p.
  reflexivity.
Qed.

(** No array: if the record is there, storing its address faults. *)
Lemma insert_without_array :
  forall d i n a h,
    records (db d) = NULL ->
    fst (insert d i n a h) = Fault NullDereference.
Proof.
  intros d i n a h Hnull. unfold insert, bind, ret.
  destruct (malloc sizeof_Record h) as [p h1].
  destruct (p =? NULL); [reflexivity|].
  destruct (strdup n h1) as [copy h2].
  unfold store. rewrite Hnull. reflexivity.
Qed.

(** An array with no slot at index [count]. *)
Lemma insert_without_room :
  forall d i n a h,
    Z.of_nat (length (slots d)) <= count (db d) ->
    exists f, fst (insert d i n a h) = Fault f.
Proof.
  intros d i n a h Hfull. unfold insert, bind, ret.
  destruct (malloc sizeof_Record h) as [p h1].
  destruct (p =? NULL); [eexists; reflexivity|].
  destruct (strdup n h1) as [copy h2].
  unfold store.
  destruct (records (db d) =? NULL); [eexists; reflexivity|].
  destruct (Z.ltb_spec (count (db d)) (Z.of_nat (length (slots d)))); [lia|].
  rewrite andb_false_r. eexists; reflexivity.
Qed.

Lemma insert_appends :
  forall d rs i n a h,
    holds d rs ->
    count (db d) < capacity (db d) ->
    capacity (db d) <= CInt.INT_MAX ->
    (exists d' p copy,
        fst (insert d i n a h) = Done d' /\
        holds d' (rs ++ [(p, {| id := i; name := copy; age := a |})]) /\
        p <> NULL /\
        (copy = None \/ exists q, q <> NULL /\ copy = Some (q, n)) /\
        self d' = self d /\
        capacity (db d') = capacity (db d))
    \/
    (fst (insert d i n a h) = Fault NullDereference /\
     fst (malloc sizeof_Record h) = NULL).
Proof.
  intros d rs i n a h (Hres & Hcap & Hcount & Hlen & Hheld) Hroom Hmax.
  unfold insert, bind, ret.
  destruct (malloc sizeof_Record h) as [p h1]. cbn [fst].
  destruct (Z.eqb_spec p NULL) as [Ep | Np].
  - right. split; [reflexivity | exact Ep].
  - left.
    pose proof (strdup_copy n h1) as Hcopy.
    destruct (strdup n h1) as [copy h2]. cbn [fst] in Hcopy.
    unfold store.
    destruct (Z.eqb_spec (records (db d)) NULL) as [E | _]; [contradiction|].
    destruct (Z.leb_spec 0 (count (db d))) as [_ | Hneg]; [| lia].
    destruct (Z.ltb_spec (count (db d)) (Z.of_nat (length (slots d))))
      as [_ | Hge]; [| lia].
    cbn [andb fst].
    eexists. exists p, copy. split; [reflexivity|].
    assert (Hnext : CInt.int_add (count (db d)) 1 = count (db d) + 1).
    { apply CIntFacts.int_add_exact. unfold CInt.INT_MIN. lia. }
    split; [| repeat split; assumption || reflexivity].
    unfold holds, held. cbn [self db slots records count capacity].
    rewrite Hnext, write_length.
    repeat split; try assumption.
    + rewrite length_app. simpl. lia.
    + replace (Z.to_nat (count (db d) + 1)) with (S (Z.to_nat (count (db d))))
        by lia.
      rewrite write_firstn by lia.
      unfold held in Hheld. rewrite Hheld, map_app. reflexivity.
Qed.

(** The loop of [destroy_database] over the records held. *)
Lemma free_records_held :
  forall d rest done h,
    records (db d) <> NULL ->
    held d = map (fun r => Some (Some r)) (done ++ rest) ->
    count (db d) = Z.of_nat (length (done ++ rest)) ->
    count (db d) <= CInt.INT_MAX ->
    free_records d (Z.of_nat (length done)) (length rest) h
    = (Done tt,
       fold_left
         (fun h' r => free (fst r) (free (string_address (name (snd r))) h'))
         rest h).
Proof.
  intros d rest. induction rest as [| r rest IH]; intros done h Hres Hheld Hcount Hmax.
  - reflexivity.
  - simpl. unfold load.
    destruct (Z.eqb_spec (records (db d)) NULL) as [E | _]; [contradiction|].
    destruct (Z.ltb_spec (Z.of_nat (length done)) 0) as [Hneg | _]; [lia|].
    assert (Hnth : nth_error (slots d) (length done) = Some (Some (Some r))).
    { assert (Hh : nth_error (held d) (length done) = Some (Some (Some r))).
      { rewrite Hheld, nth_error_map, nth_error_app2 by lia.
        now rewrite Nat.sub_diag. }
      unfold held in Hh. rewrite nth_error_firstn in Hh.
      destruct (Nat.ltb_spec (length done) (Z.to_nat (count (db d))));
        [exact Hh | discriminate]. }
    rewrite Nat2Z.id, Hnth. destruct r as [p r]. cbn [fst snd].
    rewrite length_app in Hcount. simpl in Hcount.
    rewrite CIntFacts.int_add_exact by (unfold CInt.INT_MIN; lia).
    replace (Z.of_nat (length done) + 1)
      with (Z.of_nat (length (done ++ [(p, r)])))
      by (rewrite length_app; simpl; lia).
    apply IH; try assumption.
    + now rewrite <- app_assoc.
    + rewrite <- app_assoc. simpl. rewrite length_app. simpl. lia.
Qed.

End WithHeap.

End RecordDatabaseFacts.

(** X14.  [add_record] on a consistent database holding the records
    [rs], whose doubled capacity is an [int], either appends or stops at
    a null dereference; it never writes outside the array.  When it
    returns, the database is consistent again and holds [rs] followed by
    a record at a fresh non-null address with the given [id] and [age]
    and, as [name], a copy of the given string or [NULL] when [strdup]
    failed; the capacity is as before or doubled. *)
Theorem add_record_appends_or_crashes :
  forall (heap : Type) (SA : SystemAllocator heap) (SH : SystemHeap heap)
         (d : RecordDatabase.database)
         (rs : list (Z * RecordDatabase.DbRecord))
         (i : Z) (n : String.string) (a : Z) (h : heap),
    RecordDatabase.holds d rs ->
    RecordDatabase.capacity (RecordDatabase.db d) * 2 <= CInt.INT_MAX ->
    (exists d' p copy,
        fst (RecordDatabase.add_record d i n a h) = CMemory.Done d' /\
        RecordDatabase.holds d'
          (rs ++ [(p, {| RecordDatabase.id := i;
                         RecordDatabase.name := copy;
                         RecordDatabase.age := a |})]) /\
        p <> NULL /\
        (copy = None \/ exists q, q <> NULL /\ copy = Some (q, n)) /\
        RecordDatabase.self d' = RecordDatabase.self d /\
        (RecordDatabase.capacity (RecordDatabase.db d')
         = RecordDatabase.capacity (RecordDatabase.db d) \/
         RecordDatabase.capacity (RecordDatabase.db d')
         = 2 * RecordDatabase.capacity (RecordDatabase.db d)))
    \/
    fst (RecordDatabase.add_record d i n a h)
    = CMemory.Fault CMemory.NullDereference.
Proof.
  intros heap SA SH d rs i n a h Hholds Hbound.
  pose proof Hholds as (Hres & Hcap & Hcount & Hlen & Hheld).
  assert (Hle : RecordDatabase.count (RecordDatabase.db d)
                <= RecordDatabase.capacity (RecordDatabase.db d)).
  { assert (Hl : length (RecordDatabase.held d) = length rs)
      by (rewrite Hheld; apply length_map).
    unfold RecordDatabase.held in Hl. rewrite length_firstn in Hl. lia. }
  unfold RecordDatabase.add_record, bind, RecordDatabase.grow.
  destruct (Z.eqb_spec (RecordDatabase.count (RecordDatabase.db d))
                       (RecordDatabase.capacity (RecordDatabase.db d)))
    as [Efull | Nfull].
  - assert (E2 : CInt.int_mul (RecordDatabase.capacity (RecordDatabase.db d)) 2
                 = 2 * RecordDatabase.capacity (RecordDatabase.db d)).
    { unfold CInt.int_mul. rewrite CIntFacts.int_wrap_id; [lia|].
      unfold CInt.INT_MIN. lia. }
    assert (E16 : CInt.size_mul
                    (CInt.size_of_int
                       (2 * RecordDatabase.capacity (RecordDatabase.db d)))
                    CInt.sizeof_pointer
                  = 16 * RecordDatabase.capacity (RecordDatabase.db d)).
    { unfold CInt.size_of_int, CInt.sizeof_pointer, CInt.INT_MAX in *.
      rewrite MachineFacts.wrap_id by (unfold SIZE_MAX, SIZE_MODULUS; lia).
      rewrite CIntFacts.size_mul_exact by (unfold SIZE_MAX, SIZE_MODULUS; lia).
      lia. }
    cbv zeta. rewrite E2, E16. unfold bind, ret.
    destruct (realloc (RecordDatabase.records (RecordDatabase.db d))
                      (16 * RecordDatabase.capacity (RecordDatabase.db d)) h)
      as [q h1].
    destruct (Z.eqb_spec q NULL) as [Eq | Nq].
    + right. apply RecordDatabaseFacts.insert_without_array. exact Eq.
    + assert (Hslots : CMemory.slots_in
                         (16 * RecordDatabase.capacity (RecordDatabase.db d))
                       = Z.to_nat (2 * RecordDatabase.capacity (RecordDatabase.db d))).
      { unfold CMemory.slots_in, CInt.sizeof_pointer. f_equal.
        replace (16 * RecordDatabase.capacity (RecordDatabase.db d))
          with (2 * RecordDatabase.capacity (RecordDatabase.db d) * 8) by lia.
        apply Z.div_mul. lia. }
      match goal with
      | |- context [RecordDatabase.insert ?d1 i n a h1] =>
          destruct (RecordDatabaseFacts.insert_appends d1 rs i n a h1)
            as [(d' & p & copy & Hdone & Hnow & Hp & Hcopy & Hself & Hcap')
               | [Hfault _]]
      end.
      * unfold RecordDatabase.holds, RecordDatabase.held.
        cbn [RecordDatabase.self RecordDatabase.db RecordDatabase.slots
             RecordDatabase.records RecordDatabase.count RecordDatabase.capacity].
        split; [exact Nq |]. split; [lia |]. split; [exact Hcount |].
        split.
        -- rewrite CMemoryFacts.resized_length; rewrite Hslots; lia.
        -- rewrite CMemoryFacts.resized_firstn;
             [exact Hheld | lia | rewrite Hslots; lia].
      * cbn [RecordDatabase.db RecordDatabase.count RecordDatabase.capacity]. lia.
      * cbn [RecordDatabase.db RecordDatabase.capacity]. lia.
      * left. exists d', p, copy. cbn in Hself, Hcap'.
        repeat (split; [assumption |]). right. exact Hcap'.
      * right. exact Hfault.
  - unfold ret.
    destruct (RecordDatabaseFacts.insert_appends d rs i n a h Hholds)
      as [(d' & p & copy & Hdone & Hnow & Hp & Hcopy & Hself & Hcap')
         | [Hfault _]]; try lia.
    + left. exists d', p, copy.
      repeat (split; [assumption |]). left. exact Hcap'.
    + right. exact Hfault.
Qed.

Lemma add_record_appends_or_crashes_witness :
  let d := DatabaseScenario.fresh_database in
  let h := snd (RecordDatabase.create_database 10 Scenarios.roomy) in
  fst (RecordDatabase.create_database 10 Scenarios.roomy) = Some d /\
  RecordDatabase.holds d [] /\
  RecordDatabase.capacity (RecordDatabase.db d) * 2 <= CInt.INT_MAX /\
  exists d' p q,
    fst (RecordDatabase.add_record d 1 DatabaseScenario.alice 30 h)
    = CMemory.Done d' /\
    RecordDatabase.holds d'
      [(p, {| RecordDatabase.id := 1;
              RecordDatabase.name := Some (q, DatabaseScenario.alice);
              RecordDatabase.age := 30 |})].
Proof.
  intros d h.
  assert (Hd : fst (RecordDatabase.create_database 10 Scenarios.roomy) = Some d)
    by reflexivity.
  assert (Hholds : RecordDatabase.holds d []).
  { unfold RecordDatabase.holds, RecordDatabase.held, NULL. simpl.
    repeat split; lia. }
  assert (Hbound : RecordDatabase.capacity (RecordDatabase.db d) * 2
                   <= CInt.INT_MAX).
  { unfold CInt.INT_MAX. simpl. lia. }
  split; [exact Hd | split; [exact Hholds | split; [exact Hbound |]]].
  destruct (add_record_appends_or_crashes
              SysHeap.sys_heap SysHeap.sys_allocator SysHeapMore.sys_heap_more
              d [] 1 DatabaseScenario.alice 30 h Hholds Hbound)
    as [(d' & p & copy & Hdone & Hnow & _ & Hcopy & _) | Hfault].
  - destruct Hcopy as [Hnone | (q & _ & Hsome)].
    + subst copy. vm_compute in Hdone. inversion Hdone; subst d'.
      destruct Hnow as (_ & _ & _ & _ & Hheld).
      vm_compute in Hheld. discriminate Hheld.
    + subst copy. exists d', p, q. split; [exact Hdone | exact Hnow].
  - vm_compute in Hfault. discriminate Hfault.
Defined.

(** X15.  [add_record] checks none of its allocations, and a failed one
    ends in a null dereference.  If the array is not full and [malloc]
    has no record to give, the call stops when it fills the record.  If
    the array is full and [realloc] returns [NULL], the call has already
    doubled [capacity] and overwritten [records] with [NULL], and stops
    at the latest when it stores the new record's address. *)
Theorem add_record_crashes_on_failed_allocation :
  forall (heap : Type) (SA : SystemAllocator heap) (SH : SystemHeap heap)
         (d : RecordDatabase.database)
         (i : Z) (n : String.string) (a : Z) (h : heap),
    (RecordDatabase.count (RecordDatabase.db d)
     <> RecordDatabase.capacity (RecordDatabase.db d) ->
     fst (malloc RecordDatabase.sizeof_Record h) = NULL ->
     fst (RecordDatabase.add_record d i n a h)
     = CMemory.Fault CMemory.NullDereference)
    /\
    (let capacity' :=
       CInt.int_mul (RecordDatabase.capacity (RecordDatabase.db d)) 2 in
     let bytes :=
       CInt.size_mul (CInt.size_of_int capacity') CInt.sizeof_pointer in
     RecordDatabase.count (RecordDatabase.db d)
     = RecordDatabase.capacity (RecordDatabase.db d) ->
     fst (realloc (RecordDatabase.records (RecordDatabase.db d)) bytes h) = NULL ->
     fst (RecordDatabase.grow d h)
     = {| RecordDatabase.self := RecordDatabase.self d;
          RecordDatabase.db :=
            {| RecordDatabase.records := NULL;
               RecordDatabase.count := RecordDatabase.count (RecordDatabase.db d);
               RecordDatabase.capacity := capacity' |};
          RecordDatabase.slots := [] |} /\
     fst (RecordDatabase.add_record d i n a h)
     = CMemory.Fault CMemory.NullDereference).
Proof.
  intros heap SA SH d i n a h. split.
  - intros Hroom Hnull. unfold RecordDatabase.add_record, bind, RecordDatabase.grow.
    destruct (Z.eqb_spec (RecordDatabase.count (RecordDatabase.db d))
                         (RecordDatabase.capacity (RecordDatabase.db d)));
      [contradiction|].
    unfold ret. now apply RecordDatabaseFacts.insert_without_record.
  - intros capacity' bytes Hfull Hnull. subst capacity' bytes.
    assert (Hgrown :
              fst (RecordDatabase.grow d h)
              = {| RecordDatabase.self := RecordDatabase.self d;
                   RecordDatabase.db :=
                     {| RecordDatabase.records := NULL;
                        RecordDatabase.count :=
                          RecordDatabase.count (RecordDatabase.db d);
                        RecordDatabase.capacity :=
                          CInt.int_mul
                            (RecordDatabase.capacity (RecordDatabase.db d)) 2 |};
                   RecordDatabase.slots := [] |}).
    { unfold RecordDatabase.grow. rewrite Hfull, Z.eqb_refl. cbv zeta.
      unfold bind, ret.
      destruct (realloc (RecordDatabase.records (RecordDatabase.db d)) _ h)
        as [q h1].
      cbn [fst] in Hnull. subst q. reflexivity. }
    split; [exact Hgrown |].
    unfold RecordDatabase.add_record, bind.
    destruct (RecordDatabase.grow d h) as [d1 h1]. cbn [fst] in Hgrown.
    subst d1. now apply RecordDatabaseFacts.insert_without_array.
Qed.

Lemma add_record_crashes_on_failed_allocation_witness :
  let d := DatabaseScenario.fresh_database in
  let h := SysHeap.heap_with 10 in
  RecordDatabase.count (RecordDatabase.db d)
  <> RecordDatabase.capacity (RecordDatabase.db d) /\
  fst (malloc RecordDatabase.sizeof_Record h) = NULL /\
  fst (RecordDatabase.add_record d 1 DatabaseScenario.alice 30 h)
  = CMemory.Fault CMemory.NullDereference.
Proof.
  intros d h.
  assert (Hroom : RecordDatabase.count (RecordDatabase.db d)
                  <> RecordDatabase.capacity (RecordDatabase.db d))
    by (simpl; discriminate).
  assert (Hnull : fst (malloc RecordDatabase.sizeof_Record h) = NULL)
    by reflexivity.
  split; [exact Hroom | split; [exact Hnull |]].
  exact (proj1 (add_record_crashes_on_failed_allocation
                  SysHeap.sys_heap SysHeap.sys_allocator SysHeapMore.sys_heap_more
                  d 1 DatabaseScenario.alice 30 h) Hroom Hnull).
Defined.

(** X16.  A database that [create_database] returned without an array
    ([calloc] failed and nothing looked at its result), or with a
    capacity of 0, cannot take a record: every [add_record] on it, in
    any heap, stops at a null dereference or at a store outside the
    array. *)
Theorem add_record_always_crashes_on_unusable_database :
  forall (heap : Type) (SA : SystemAllocator heap) (SH : SystemHeap heap)
         (c : Z) (h h1 h2 : heap) (d : RecordDatabase.database)
         (i : Z) (n : String.string) (a : Z),
    RecordDatabase.create_database c h = (Some d, h1) ->
    RecordDatabase.records (RecordDatabase.db d) = NULL \/ c = 0 ->
    exists f, fst (RecordDatabase.add_record d i n a h2) = CMemory.Fault f.
Proof.
  intros heap SA SH c h h1 h2 d i n a Hc Hbad.
  assert (Hd : RecordDatabase.count (RecordDatabase.db d) = 0 /\
               RecordDatabase.capacity (RecordDatabase.db d) = c).
  { revert Hc. unfold RecordDatabase.create_database, bind, ret.
    destruct (malloc RecordDatabase.sizeof_Database h) as [p h0].
    destruct (p =? NULL); [discriminate|]. cbv zeta.
    destruct (calloc (CInt.size_of_int c) CInt.sizeof_pointer h0) as [recs h0'].
    intros E; inversion E; split; reflexivity. }
  destruct Hd as [Hcount Hcap]. clear Hc.
  unfold RecordDatabase.add_record, RecordDatabase.grow.
  rewrite Hcount, Hcap. clear Hcap.
  destruct (Z.eqb_spec 0 c) as [Ezero | Nzero].
  - subst c. cbv zeta.
    change (CInt.size_mul (CInt.size_of_int (CInt.int_mul 0 2)) CInt.sizeof_pointer)
      with 0.
    unfold bind at 1 2. unfold ret at 1.
    destruct (realloc (RecordDatabase.records (RecordDatabase.db d)) 0 h2)
      as [q h3].
    destruct (Z.eqb_spec q NULL) as [Eq | Nq].
    + eexists. apply RecordDatabaseFacts.insert_without_array. exact Eq.
    + apply RecordDatabaseFacts.insert_without_room.
      cbn [RecordDatabase.slots RecordDatabase.db RecordDatabase.count].
      unfold CMemory.resized. simpl. lia.
  - unfold bind at 1. unfold ret at 1.
    destruct Hbad as [Hnull | Hzero]; [| congruence].
    eexists. apply RecordDatabaseFacts.insert_without_array. exact Hnull.
Qed.

Lemma add_record_always_crashes_on_unusable_database_witness :
  let r := RecordDatabase.create_database 1000 Scenarios.tight in
  exists d,
    r = (Some d, snd r) /\
    (RecordDatabase.records (RecordDatabase.db d) = NULL \/ 1000 = 0) /\
    exists f,
      fst (RecordDatabase.add_record d 1 DatabaseScenario.alice 30 (snd r))
      = CMemory.Fault f.
Proof.
  intros r.
  exists {| RecordDatabase.self := 4096;
            RecordDatabase.db :=
              {| RecordDatabase.records := NULL;
                 RecordDatabase.count := 0;
                 RecordDatabase.capacity := 1000 |};
            RecordDatabase.slots := [] |}.
  assert (Hc : r = (Some {| RecordDatabase.self := 4096;
                            RecordDatabase.db :=
                              {| RecordDatabase.records := NULL;
                                 RecordDatabase.count := 0;
                                 RecordDatabase.capacity := 1000 |};
                            RecordDatabase.slots := [] |}, snd r))
    by reflexivity.
  assert (Hbad : RecordDatabase.records
                   (RecordDatabase.db
                      {| RecordDatabase.self := 4096;
                         RecordDatabase.db :=
                           {| RecordDatabase.records := NULL;
                              RecordDatabase.count := 0;
                              RecordDatabase.capacity := 1000 |};
                         RecordDatabase.slots := [] |}) = NULL \/ 1000 = 0)
    by (left; reflexivity).
  split; [exact Hc | split; [exact Hbad |]].
  exact (add_record_always_crashes_on_unusable_database
           SysHeap.sys_heap SysHeap.sys_allocator SysHeapMore.sys_heap_more
           1000 Scenarios.tight (snd r) (snd r) _ 1 DatabaseScenario.alice 30
           Hc Hbad).
Defined.

(** X17.  [destroy_database] on a consistent database holding the
    records [rs] reads no slot outside the held ones and calls [free],
    for each record in the order they were added, on its [name] and then
    on the record, then on the array, then on the struct. *)
Theorem destroy_database_frees_every_record :
  forall (heap : Type) (SA : SystemAllocator heap) (SH : SystemHeap heap)
         (d : RecordDatabase.database)
         (rs : list (Z * RecordDatabase.DbRecord)) (h : heap),
    RecordDatabase.holds d rs ->
    RecordDatabase.capacity (RecordDatabase.db d) <= CInt.INT_MAX ->
    RecordDatabase.destroy_database d h
    = (CMemory.Done tt,
       free (RecordDatabase.self d)
         (free (RecordDatabase.records (RecordDatabase.db d))
            (fold_left
               (fun h' r =>
                  free (fst r)
                    (free (RecordDatabase.string_address
                             (RecordDatabase.name (snd r))) h'))
               rs h))).
Proof.
  intros heap SA SH d rs h (Hres & Hcap & Hcount & Hlen & Hheld) Hmax.
  assert (Hle : RecordDatabase.count (RecordDatabase.db d)
                <= RecordDatabase.capacity (RecordDatabase.db d)).
  { assert (Hl : length (RecordDatabase.held d) = length rs)
      by (rewrite Hheld; apply length_map).
    unfold RecordDatabase.held in Hl. rewrite length_firstn in Hl. lia. }
  unfold RecordDatabase.destroy_database, bind.
  rewrite Hcount, Nat2Z.id.
  pose proof (RecordDatabaseFacts.free_records_held d rs [] h Hres Hheld Hcount)
    as Hloop.
  simpl in Hloop. rewrite Hloop by lia. reflexivity.
Qed.

Lemma destroy_database_frees_every_record_witness :
  let alice := {| RecordDatabase.id := 1;
                  RecordDatabase.name := Some (4224, DatabaseScenario.alice);
                  RecordDatabase.age := 30 |} in
  let d := {| RecordDatabase.self := 4096;
              RecordDatabase.db :=
                {| RecordDatabase.records := 4112;
                   RecordDatabase.count := 1;
                   RecordDatabase.capacity := 2 |};
              RecordDatabase.slots := [Some (Some (4192, alice)); Some None] |} in
  RecordDatabase.holds d [(4192, alice)] /\
  RecordDatabase.capacity (RecordDatabase.db d) <= CInt.INT_MAX /\
  forall h : SysHeap.sys_heap,
    RecordDatabase.destroy_database d h
    = (CMemory.Done tt, free 4096 (free 4112 (free 4192 (free 4224 h)))).
Proof.
  intros alice d.
  assert (Hholds : RecordDatabase.holds d [(4192, alice)]).
  { unfold RecordDatabase.holds, RecordDatabase.held, NULL. simpl.
    repeat split; lia. }
  assert (Hmax : RecordDatabase.capacity (RecordDatabase.db d) <= CInt.INT_MAX).
  { unfold CInt.INT_MAX. simpl. lia. }
  split; [exact Hholds | split; [exact Hmax |]].
  intros h.
  exact (destroy_database_frees_every_record
           SysHeap.sys_heap SysHeap.sys_allocator SysHeapMore.sys_heap_more
           d [(4192, alice)] h Hholds Hmax).
Defined.

